(** * saber.utils.parallelization: the GPU pool, embedded and verified

    A shallow embedding of [src/saber/utils/parallelization.py]: the
    [GPUPool] class with its threading and multiprocessing engines, the
    unified [execute] entry point, [start]/[shutdown], the statistics of
    [_print_stats], and the convenience function [gpu_map].

    Conventions of the embedding.
    - Python values that travel through the pool (payloads, models,
      results) are [PyVal]; dictionaries keep insertion order and have
      string keys, as keyword-argument dictionaries do. Task ids are
      integers or strings.
    - A call of user code ([init_fn], [func]) is a function of its
      arguments returning [Return] or [Raise]; only [Exception]s, which the
      [except Exception] handlers of the module catch, are modelled.
    - A method is a function from the pool to the new pool and a
      [Completion]: it returned, it raised, or it is still blocked when the
      schedule handed to it ran out.
    - Concurrency is interleaving: the thread pool completes its futures in
      an order picked by an oracle, the worker processes and the parent
      take turns along a list of [Actor]s; a worker that gets a turn while
      it waits on an empty queue has timed out.
    - Left out: printing and the progress bar; the [torch.cuda] calls,
      taken to succeed; how the host runtime spawns a process.
      [_print_stats] only prints: it is embedded apart from [execute], as
      the figures it prints. *)

From Stdlib Require Import ZArith QArith_base String Ascii Sorted.
From stdpp Require Import base option list gmap strings pretty.

Close Scope Q_scope.
Open Scope string_scope.
Open Scope list_scope.
Open Scope nat_scope.

(** ** Values *)

#[warnings="-register-all"]
Inductive PyVal :=
| PNone
| PBool (b : bool)
| PInt (z : Z)
| PFloat (q : Q)
| PStr (s : string)
| PTuple (items : list PyVal)
| PList (items : list PyVal)
| PDict (entries : list (string * PyVal)).

(** A [dict] with string keys, in insertion order. *)
Definition Dict : Type := list (string * PyVal).

Fixpoint dict_get (k : string) (d : Dict) : option PyVal :=
  match d with
  | [] => None
  | (k', v) :: rest => if String.eqb k k' then Some v else dict_get k rest
  end.

(** [d[k] = v]: an existing key keeps its place, a new key goes last. *)
Fixpoint dict_set (k : string) (v : PyVal) (d : Dict) : Dict :=
  match d with
  | [] => [(k, v)]
  | (k', v') :: rest =>
      if String.eqb k k' then (k, v) :: rest else (k', v') :: dict_set k v rest
  end.

(** Task ids: the integers that [execute] generates by default and the
    strings a caller may pass (the module itself uses the string
    ["INIT_FAILED"]). *)
Inductive TaskId :=
| TidInt (z : Z)
| TidStr (s : string).

(** ** Exceptions and completions *)

Inductive Exception :=
| TypeError
| ValueError
| ZeroDivisionError
| KeyError
| Thrown (description : string).
(* [Thrown d]: raised by user code, with [str(e) = d]. *)

Inductive Completion (A : Type) :=
| Returned (a : A)
| Raised (e : Exception)
| Blocked.
Arguments Returned {A} a.
Arguments Raised {A} e.
Arguments Blocked {A}.

Definition cbind {A B} (c : Completion A) (k : A -> Completion B) : Completion B :=
  match c with
  | Returned a => k a
  | Raised e => Raised e
  | Blocked => Blocked
  end.

Notation "'do' x <- c ; k" := (cbind c (fun x => k))
  (at level 10, x name, c at level 100, k at level 200).

(** The result of calling user code: the value and the wall-clock seconds
    the call took, or the description [str(e)] of the exception raised. *)
Inductive CallResult :=
| Return (value : PyVal) (seconds : Q)
| Raise (description : string).

(** The call of [init_fn] on [gpu_id], the unpacked [init_args] and
    [init_kwargs]. *)
Definition InitFn : Type := nat -> PyVal -> Dict -> CallResult.

(** The call of [func] on the unpacked [args] and [enhanced_kwargs]. *)
Definition WorkFn : Type := PyVal -> Dict -> CallResult.

(** ** Outcomes

    The result dictionaries built by the workers. The ['success'] entry is
    the constructor; the other entries are the constructor's arguments. *)
Inductive Outcome :=
| Success (task_id : TaskId) (gpu_id : nat) (processing_time : Q) (result : PyVal)
| Failure (task_id : TaskId) (gpu_id : nat) (error : string).

Definition success (o : Outcome) : bool :=
  match o with Success _ _ _ _ => true | Failure _ _ _ => false end.

Definition task_id (o : Outcome) : TaskId :=
  match o with Success t _ _ _ => t | Failure t _ _ => t end.

Definition gpu_id (o : Outcome) : nat :=
  match o with Success _ g _ _ => g | Failure _ g _ => g end.

Definition processing_time (o : Outcome) : option Q :=
  match o with Success _ _ dt _ => Some dt | Failure _ _ _ => None end.

Definition result (o : Outcome) : option PyVal :=
  match o with Success _ _ _ r => Some r | Failure _ _ _ => None end.

Definition error (o : Outcome) : option string :=
  match o with Success _ _ _ _ => None | Failure _ _ e => Some e end.

(** The keys of the dictionary, in the order the source writes them. *)
Definition keys (o : Outcome) : list string :=
  match o with
  | Success _ _ _ _ => ["success"; "task_id"; "gpu_id"; "processing_time"; "result"]
  | Failure _ _ _ => ["success"; "task_id"; "gpu_id"; "error"]
  end.

(** ** Payload normalisation *)

(** Lines 142-149 of [_execute_threading]. *)
Definition normalize_threading (task : PyVal) : PyVal * Dict :=
  match task with
  | PDict d => (PTuple [], d)
  | PTuple [a; PDict d] => (a, d)
  | PList _ => (task, [])
  | PTuple _ => (task, [])
  | _ => (PTuple [task], [])
  end.

(** Lines 293-300 of [_execute_multiprocessing]. *)
Definition normalize_multiprocessing (task : PyVal) : PyVal * Dict :=
  match task with
  | PDict d => (PTuple [], d)
  | PTuple items =>
      match items with
      | [a; PDict d] => (a, d)
      | _ => (task, [])
      end
  | PList _ => (task, [])
  | _ => (PTuple [task], [])
  end.

(** The keyword arguments a worker passes on: a copy of the task's, with
    ['gpu_id'] and, when there are models, ['models']. *)
Definition enhance (kwargs : Dict) (gpu_id : nat) (models : PyVal) : Dict :=
  let enhanced_kwargs := dict_set "gpu_id" (PInt (Z.of_nat gpu_id)) kwargs in
  match models with
  | PNone => enhanced_kwargs
  | _ => dict_set "models" models enhanced_kwargs
  end.

(** ** The pool object *)

Inductive Approach := threading | multiprocessing.

(** The attributes set once by [__init__]. [n_gpus] is what
    [torch.cuda.device_count()] answered. *)
Record Config := {
  n_gpus : nat;
  init_fn : option InitFn;
  init_args : PyVal;
  init_kwargs : Dict;
  verbose : bool;
  approach : Approach
}.

(** The attributes of [_init_threading]. *)
Record Threading := {
  models : gmap nat PyVal;
  model_locks : gset nat;
  initialized : bool
}.

(** What a worker thread or process is handed for one task. *)
Record TaskData := {
  td_id : TaskId;
  td_func : WorkFn;
  td_args : PyVal;
  td_kwargs : Dict
}.

(** Where a worker process stands in [_worker_process]. *)
Inductive Worker :=
| Spawned
| LoopTop (models : PyVal) (task_count : nat)
| Waiting (models : PyVal) (task_count : nat)
| Running (models : PyVal) (task_count : nat) (task_data : TaskData)
| Exited.

Record Process := {
  proc_gpu : nat;
  proc_state : Worker
}.

(** The attributes of [_init_multiprocessing]. A [None] on the task queue
    is the shutdown signal. *)
Record Multiprocessing := {
  task_queue : list (option TaskData);
  result_queue : list Outcome;
  workers : list Process;
  shutdown_event : bool;
  started : bool
}.

(** A pool carries the attributes of its own approach; the other engine's
    record stays as built and is never read. *)
Record GPUPool := {
  cfg : Config;
  thr : Threading;
  mpr : Multiprocessing
}.

Definition M (A : Type) : Type := GPUPool -> GPUPool * Completion A.

Definition _init_threading : Threading :=
  {| models := ∅; model_locks := ∅; initialized := false |}.

Definition _init_multiprocessing : Multiprocessing :=
  {| task_queue := []; result_queue := []; workers := [];
     shutdown_event := false; started := false |}.

(** [GPUPool.__init__]. *)
Definition GPUPool_init (device_count : nat) (approach : string)
    (init_fn : option InitFn) (init_args : PyVal) (init_kwargs : Dict)
    (verbose : bool) : Completion GPUPool :=
  let config a :=
    {| n_gpus := device_count; init_fn := init_fn; init_args := init_args;
       init_kwargs := init_kwargs; verbose := verbose; approach := a |} in
  if String.eqb approach "threading" then
    Returned {| cfg := config threading; thr := _init_threading;
                mpr := _init_multiprocessing |}
  else if String.eqb approach "multiprocessing" then
    Returned {| cfg := config multiprocessing; thr := _init_threading;
                mpr := _init_multiprocessing |}
  else Raised ValueError.

(** ** The threading engine *)

Definition set_model (gpu_id : nat) (m : PyVal) (t : Threading) : Threading :=
  {| models := <[gpu_id := m]> (models t);
     model_locks := {[gpu_id]} ∪ model_locks t;
     initialized := initialized t |}.

Definition set_initialized (t : Threading) : Threading :=
  {| models := models t; model_locks := model_locks t; initialized := true |}.

(** The [for gpu_id in range(self.n_gpus)] loop of
    [_initialize_models_threading]. An exception of [init_fn] leaves the
    loop with the models loaded so far. *)
Fixpoint load_models (c : Config) (gpu_ids : list nat) (t : Threading)
    : Threading * Completion unit :=
  match gpu_ids with
  | [] => (t, Returned tt)
  | gpu_id :: rest =>
      match init_fn c with
      | Some f =>
          match f gpu_id (init_args c) (init_kwargs c) with
          | Return m _ => load_models c rest (set_model gpu_id m t)
          | Raise e => (t, Raised (Thrown e))
          end
      | None => load_models c rest (set_model gpu_id PNone t)
      end
  end.

Definition _initialize_models_threading (c : Config) (t : Threading)
    : Threading * Completion unit :=
  match load_models c (seq 0 (n_gpus c)) t with
  | (t', Returned _) => (set_initialized t', Returned tt)
  | (t', r) => (t', r)
  end.

(** [i % n]. *)
Definition py_mod (i n : nat) : Completion nat :=
  match n with
  | 0 => Raised ZeroDivisionError
  | _ => Returned (i mod n)
  end.

(** A prepared task: [(task_id, gpu_id, args, kwargs)]. *)
Definition Prepared : Type := TaskId * nat * PyVal * Dict.

(** The loop over [enumerate(zip(task_ids, tasks))], started at index [i]. *)
Fixpoint prepare_tasks (n_gpus i : nat) (pairs : list (TaskId * PyVal))
    : Completion (list Prepared) :=
  match pairs with
  | [] => Returned []
  | (task_id, task) :: rest =>
      do gpu_id <- py_mod i n_gpus;
      let '(args, kwargs) := normalize_threading task in
      do prepared <- prepare_tasks n_gpus (S i) rest;
      Returned ((task_id, gpu_id, args, kwargs) :: prepared)
  end.

(** The closure [worker_thread]. Taking the lock of a device without one
    is a [KeyError] outside the [try]; inside it every exception becomes a
    failed outcome. The lock itself only serialises the calls on one
    device, which does not show in a function of the arguments. *)
Definition worker_thread (t : Threading) (func : WorkFn) (task_data : Prepared)
    : Completion Outcome :=
  let '(task_id, gpu_id, args, kwargs) := task_data in
  if decide (gpu_id ∈ model_locks t) then
    match models t !! gpu_id with
    | None => Returned (Failure task_id gpu_id (pretty gpu_id))
    | Some m =>
        match func args (enhance kwargs gpu_id m) with
        | Return r seconds => Returned (Success task_id gpu_id seconds r)
        | Raise e => Returned (Failure task_id gpu_id e)
        end
    end
  else Raised KeyError.

(** Removes the element at position [k]. *)
Fixpoint extract {A} (k : nat) (l : list A) {struct l} : option (A * list A) :=
  match l, k with
  | [], _ => None
  | x :: rest, 0 => Some (x, rest)
  | x :: rest, S k' =>
      match extract k' rest with
      | Some (y, rest') => Some (y, x :: rest')
      | None => None
      end
  end.

(** [as_completed]: the executor runs the first [max_workers] unfinished
    futures; the next pick says which of those finishes next. *)
Fixpoint as_completed_from {A} (fuel max_workers : nat) (picks : list nat)
    (futures : list A) : list A :=
  match fuel with
  | 0 => []
  | S fuel' =>
      let running := Nat.min max_workers (length futures) in
      let k := match picks with [] => 0 | p :: _ => p mod running end in
      match extract k futures with
      | Some (done, rest) =>
          done :: as_completed_from fuel' max_workers (tail picks) rest
      | None => []
      end
  end.

Definition as_completed {A} (max_workers : nat) (picks : list nat)
    (futures : list A) : list A :=
  as_completed_from (length futures) max_workers picks futures.

(** [results.append(future.result())] over the completed futures: the
    first future that holds an exception re-raises it. *)
Fixpoint collect_futures (completed : list (Completion Outcome))
    : Completion (list Outcome) :=
  match completed with
  | [] => Returned []
  | future :: rest =>
      do result <- future;
      do results <- collect_futures rest;
      Returned (result :: results)
  end.

Definition with_thr (p : GPUPool) (t : Threading) : GPUPool :=
  {| cfg := cfg p; thr := t; mpr := mpr p |}.

Definition _execute_threading (picks : list nat) (func : WorkFn)
    (tasks : list PyVal) (task_ids : list TaskId) : M (list Outcome) :=
  fun pool =>
    let c := cfg pool in
    let '(t, ready) :=
      if initialized (thr pool) then (thr pool, Returned tt)
      else _initialize_models_threading c (thr pool) in
    (with_thr pool t,
     do _ <- ready;
     do prepared_tasks <- prepare_tasks (n_gpus c) 0 (zip task_ids tasks);
     match n_gpus c with
     | 0 => Raised ValueError
     | max_workers =>
         collect_futures
           (as_completed max_workers picks
              (map (worker_thread t func) prepared_tasks))
     end).

(** ** The multiprocessing engine *)

Definition with_queues (m : Multiprocessing) (tq : list (option TaskData))
    (rq : list Outcome) (ws : list Process) : Multiprocessing :=
  {| task_queue := tq; result_queue := rq; workers := ws;
     shutdown_event := shutdown_event m; started := started m |}.

Definition set_worker (i : nat) (p : Process) (w : Worker) (ws : list Process)
    : list Process :=
  <[i := {| proc_gpu := proc_gpu p; proc_state := w |}]> ws.

(** The body of the inner [try] of [_worker_process] for one task. *)
Definition run_task (gpu_id : nat) (models : PyVal) (td : TaskData) : Outcome :=
  match td_func td (td_args td) (enhance (td_kwargs td) gpu_id models) with
  | Return r seconds => Success (td_id td) gpu_id seconds r
  | Raise e => Failure (td_id td) gpu_id e
  end.

(** The outcome put by the outer [except] of [_worker_process]. *)
Definition init_failed (gpu_id : nat) (e : string) : Outcome :=
  Failure (TidStr "INIT_FAILED") gpu_id ("Worker initialization failed: " ++ e).

(** [_worker_process], one turn at a time, for process number [i] of
    [self.workers]:
    - [Spawned]: load the models; an exception puts the ["INIT_FAILED"]
      outcome and ends the process;
    - [LoopTop]: test the shutdown event;
    - [Waiting]: [task_queue.get(timeout=1.0)]; a turn on an empty queue is
      the timeout, [None] is the shutdown signal;
    - [Running]: run the task and put its outcome. *)
Definition _worker_process (c : Config) (i : nat) (m : Multiprocessing)
    : Multiprocessing :=
  match workers m !! i with
  | None => m
  | Some p =>
      let become w := set_worker i p w (workers m) in
      match proc_state p with
      | Spawned =>
          match init_fn c with
          | Some f =>
              match f (proc_gpu p) (init_args c) (init_kwargs c) with
              | Return models _ =>
                  with_queues m (task_queue m) (result_queue m)
                    (become (LoopTop models 0))
              | Raise e =>
                  with_queues m (task_queue m)
                    (result_queue m ++ [init_failed (proc_gpu p) e])
                    (become Exited)
              end
          | None =>
              with_queues m (task_queue m) (result_queue m)
                (become (LoopTop PNone 0))
          end
      | LoopTop models n =>
          with_queues m (task_queue m) (result_queue m)
            (become (if shutdown_event m then Exited else Waiting models n))
      | Waiting models n =>
          match task_queue m with
          | [] =>
              with_queues m [] (result_queue m) (become (LoopTop models n))
          | None :: queue =>
              with_queues m queue (result_queue m) (become Exited)
          | Some td :: queue =>
              with_queues m queue (result_queue m)
                (become (Running models (S n) td))
          end
      | Running models n td =>
          with_queues m (task_queue m)
            (result_queue m ++ [run_task (proc_gpu p) models td])
            (become (LoopTop models n))
      | Exited => m
      end
  end.

(** [mp.Queue(maxsize=self.n_gpus * 2)]; a size of zero is no bound. *)
Definition maxsize (c : Config) : nat := n_gpus c * 2.

Definition full (c : Config) (queue : list (option TaskData)) : bool :=
  (0 <? maxsize c) && (maxsize c <=? length queue).

(** The parent inside [_execute_multiprocessing]: the tasks still to put,
    the number of results still to get, the results so far. *)
Record Parent := {
  todo : list TaskData;
  remaining : nat;
  results : list Outcome
}.

Definition parent_done (p : Parent) : bool :=
  match todo p, remaining p with
  | [], 0 => true
  | _, _ => false
  end.

(** One turn of the parent: the next [put], which waits while the queue is
    full, or the next [get], which waits while there is no result. *)
Definition parent_step (c : Config) (p : Parent) (m : Multiprocessing)
    : Parent * Multiprocessing :=
  match todo p with
  | td :: rest =>
      if full c (task_queue m) then (p, m)
      else ({| todo := rest; remaining := remaining p; results := results p |},
            with_queues m (task_queue m ++ [Some td]) (result_queue m) (workers m))
  | [] =>
      match remaining p, result_queue m with
      | S k, r :: queue =>
          ({| todo := []; remaining := k; results := results p ++ [r] |},
           with_queues m (task_queue m) queue (workers m))
      | _, _ => (p, m)
      end
  end.

Inductive Actor :=
| TheParent
| Child (i : nat).

Definition turn (c : Config) (a : Actor) (s : Parent * Multiprocessing)
    : Parent * Multiprocessing :=
  match a with
  | TheParent => parent_step c s.1 s.2
  | Child i => (s.1, _worker_process c i s.2)
  end.

Definition run (c : Config) (turns : list Actor) (s : Parent * Multiprocessing)
    : Parent * Multiprocessing :=
  foldl (fun s a => turn c a s) s turns.

Definition with_mpr (p : GPUPool) (m : Multiprocessing) : GPUPool :=
  {| cfg := cfg p; thr := thr p; mpr := m |}.

(** [start]. *)
Definition start : M unit :=
  fun pool =>
    match approach (cfg pool), started (mpr pool) with
    | multiprocessing, false =>
        let m := mpr pool in
        let spawned :=
          map (fun gpu_id => {| proc_gpu := gpu_id; proc_state := Spawned |})
              (seq 0 (n_gpus (cfg pool))) in
        (with_mpr pool
           {| task_queue := task_queue m; result_queue := result_queue m;
              workers := workers m ++ spawned;
              shutdown_event := shutdown_event m; started := true |},
         Returned tt)
    | _, _ => (pool, Returned tt)
    end.

(** The tuples put on the task queue, in submission order. *)
Definition submissions (func : WorkFn) (tasks : list PyVal) (task_ids : list TaskId)
    : list TaskData :=
  map (fun '(task_id, task) =>
         let '(args, kwargs) := normalize_multiprocessing task in
         {| td_id := task_id; td_func := func; td_args := args; td_kwargs := kwargs |})
      (zip task_ids tasks).

Definition _execute_multiprocessing (turns : list Actor) (func : WorkFn)
    (tasks : list PyVal) (task_ids : list TaskId) : M (list Outcome) :=
  fun pool =>
    let pool1 := if started (mpr pool) then pool else (start pool).1 in
    let parent :=
      {| todo := submissions func tasks task_ids;
         remaining := length tasks; results := [] |} in
    let '(parent', m) := run (cfg pool1) turns (parent, mpr pool1) in
    (with_mpr pool1 m,
     if parent_done parent' then Returned (results parent') else Blocked).

(** ** The unified interface *)

(** [<] on task ids, as Python compares an [int] or a [str] with another. *)
Definition tid_lt (a b : TaskId) : Completion bool :=
  match a, b with
  | TidInt x, TidInt y => Returned (x <? y)%Z
  | TidStr s, TidStr t => Returned (String.ltb s t)
  | _, _ => Raised TypeError
  end.

(** [sorted(results, key=task_id)]. [sorted] is stable and compares with
    [<] only; a comparison that raises ends the sort. Insertion from the
    right computes the stable ascending arrangement with [<] alone. *)
Fixpoint insert_sorted (x : Outcome) (l : list Outcome)
    : Completion (list Outcome) :=
  match l with
  | [] => Returned [x]
  | y :: rest =>
      do before <- tid_lt (task_id y) (task_id x);
      if (before : bool) then
        do rest' <- insert_sorted x rest;
        Returned (y :: rest')
      else Returned (x :: y :: rest)
  end.

Fixpoint sorted_by_task_id (l : list Outcome) : Completion (list Outcome) :=
  match l with
  | [] => Returned []
  | x :: rest =>
      do rest' <- sorted_by_task_id rest;
      insert_sorted x rest'
  end.

(** The two sources of nondeterminism of one [execute]: the completion
    picks of the thread pool and the turns of parent and worker processes. *)
Record Schedule := {
  picks : list nat;
  turns : list Actor
}.

Definition default_task_ids (tasks : list PyVal) : list TaskId :=
  map (fun i => TidInt (Z.of_nat i)) (seq 0 (length tasks)).

(** The engine of the pool's approach: lines 371-374 of [execute]. *)
Definition run_engine (s : Schedule) (func : WorkFn) (tasks : list PyVal)
    (task_ids : list TaskId) : M (list Outcome) :=
  fun pool =>
    match approach (cfg pool) with
    | threading => _execute_threading (picks s) func tasks task_ids pool
    | multiprocessing =>
        _execute_multiprocessing (turns s) func tasks task_ids pool
    end.

(** [execute]. *)
Definition execute (s : Schedule) (func : WorkFn) (tasks : list PyVal)
    (task_ids : option (list TaskId)) : M (list Outcome) :=
  fun pool =>
    match tasks with
    | [] => (pool, Returned [])
    | _ =>
        let task_ids := default (default_task_ids tasks) task_ids in
        let '(pool', results) := run_engine s func tasks task_ids pool in
        (pool', do results <- results; sorted_by_task_id results)
    end.

(** The worker turns that pass while the parent waits in one call. *)
Definition run_children (c : Config) (children : list nat) (m : Multiprocessing)
    : Multiprocessing :=
  foldl (fun m i => _worker_process c i m) m children.

(** [self.task_queue.put(None, timeout=1.0)] inside [try/except: pass],
    [count] times; each call lets the workers of one pause run. *)
Fixpoint send_signals (c : Config) (count : nat) (pauses : list (list nat))
    (m : Multiprocessing) : list (list nat) * Multiprocessing :=
  match count with
  | 0 => (pauses, m)
  | S count' =>
      let m1 := run_children c (default [] (head pauses)) m in
      let m2 :=
        if full c (task_queue m1) then m1
        else with_queues m1 (task_queue m1 ++ [None]) (result_queue m1) (workers m1) in
      send_signals c count' (tail pauses) m2
  end.

(** [worker.join(timeout=5.0)], then [terminate] and [join] if the worker
    is still alive, for workers [i], [i+1], ... *)
Fixpoint join_workers (c : Config) (count i : nat) (pauses : list (list nat))
    (m : Multiprocessing) : Multiprocessing :=
  match count with
  | 0 => m
  | S count' =>
      let m1 := run_children c (default [] (head pauses)) m in
      let m2 :=
        match workers m1 !! i with
        | Some p => with_queues m1 (task_queue m1) (result_queue m1)
                      (set_worker i p Exited (workers m1))
        | None => m1
        end in
      join_workers c count' (S i) (tail pauses) m2
  end.

(** [shutdown]. *)
Definition shutdown (pauses : list (list nat)) : M unit :=
  fun pool =>
    match approach (cfg pool), started (mpr pool) with
    | multiprocessing, true =>
        let c := cfg pool in
        let m := mpr pool in
        let m1 :=
          {| task_queue := task_queue m; result_queue := result_queue m;
             workers := workers m; shutdown_event := true; started := started m |} in
        let '(pauses', m2) := send_signals c (n_gpus c) pauses m1 in
        let m3 := join_workers c (length (workers m2)) 0 pauses' m2 in
        (with_mpr pool
           {| task_queue := task_queue m3; result_queue := result_queue m3;
              workers := workers m3; shutdown_event := shutdown_event m3;
              started := false |},
         Returned tt)
    | _, _ => (pool, Returned tt)
    end.

(** [__enter__] and [__exit__], and the [with] statement they serve: the
    exit runs whatever the body did. *)
Definition __enter__ : M unit :=
  fun pool =>
    match approach (cfg pool) with
    | multiprocessing => start pool
    | threading => (pool, Returned tt)
    end.

Definition __exit__ (pauses : list (list nat)) : M unit := shutdown pauses.

Definition with_pool {A} (pauses : list (list nat)) (body : M A) : M A :=
  fun pool =>
    let '(pool1, _) := __enter__ pool in
    let '(pool2, r) := body pool1 in
    match r with
    | Blocked => (pool2, Blocked)
    | _ => let '(pool3, _) := __exit__ pauses pool2 in (pool3, r)
    end.

(** ** The convenience function *)

(** An argument at a call site: a value or a callable. *)
Inductive Arg :=
| ArgVal (v : PyVal)
| ArgFn (f : InitFn).

(** The typed reading of an argument bound to a parameter of [__init__].
    [approach] is only compared with the two names, so an argument that is
    not a string fails both comparisons; [verbose] is only tested for
    truth. The other three have a reading when they have the annotated
    type. *)
Definition as_approach (a : Arg) : option string :=
  match a with ArgVal (PStr s) => Some s | _ => None end.

Definition as_init_fn (a : Arg) : option (option InitFn) :=
  match a with
  | ArgFn f => Some (Some f)
  | ArgVal PNone => Some None
  | _ => None
  end.

Definition as_init_args (a : Arg) : option PyVal :=
  match a with ArgVal v => Some v | ArgFn _ => None end.

Definition as_init_kwargs (a : Arg) : option Dict :=
  match a with ArgVal (PDict d) => Some d | _ => None end.

Definition truthy (a : Arg) : bool :=
  match a with
  | ArgFn _ => true
  | ArgVal PNone => false
  | ArgVal (PBool b) => b
  | ArgVal (PInt z) => negb (z =? 0)%Z
  | ArgVal (PFloat q) => negb (Qnum q =? 0)%Z
  | ArgVal (PStr s) => negb (String.eqb s "")
  | ArgVal (PTuple l) | ArgVal (PList l) => negb (Nat.eqb (length l) 0)
  | ArgVal (PDict d) => negb (Nat.eqb (length d) 0)
  end.

(** The parameters of [GPUPool.__init__] after [self]: [approach],
    [init_fn], [init_args], [init_kwargs], [verbose]. *)
Definition GPUPool_parameters : nat := 5.

(** The call [GPUPool(a1, ..., ak)] with positional arguments only. More
    arguments than parameters is the [TypeError] of the call itself: the
    body of [__init__] does not start. The answer is [None] where an
    argument has no typed reading, a call the embedding gives no meaning. *)
Definition GPUPool_call (device_count : nat) (args : list Arg)
    : option (Completion GPUPool) :=
  if GPUPool_parameters <? length args then Some (Raised TypeError)
  else
    match as_approach (default (ArgVal (PStr "threading")) (args !! 0)) with
    | None => Some (Raised ValueError)
    | Some a =>
        if negb (String.eqb a "threading" || String.eqb a "multiprocessing")
        then Some (Raised ValueError)
        else
          match as_init_fn (default (ArgVal PNone) (args !! 1)),
                as_init_args (default (ArgVal (PTuple [])) (args !! 2)),
                as_init_kwargs (default (ArgVal (PDict [])) (args !! 3)) with
          | Some f, Some ia, Some ik =>
              Some (GPUPool_init device_count a f ia ik
                      (truthy (default (ArgVal (PBool true)) (args !! 4))))
          | _, _, _ => None
          end
    end.

Definition arg_of_n_gpus (n_gpus : option nat) : Arg :=
  match n_gpus with
  | None => ArgVal PNone
  | Some n => ArgVal (PInt (Z.of_nat n))
  end.

Definition arg_of_init_fn (init_fn : option InitFn) : Arg :=
  match init_fn with
  | None => ArgVal PNone
  | Some f => ArgFn f
  end.

(** [gpu_map]: the pool is built with seven positional arguments, entered,
    and asked to [execute]. *)
Definition gpu_map (device_count : nat) (s : Schedule) (pauses : list (list nat))
    (func : WorkFn) (tasks : list PyVal) (approach : string)
    (model_size_gb : Q) (n_gpus : option nat) (init_fn : option InitFn)
    (init_args : PyVal) (init_kwargs : Dict) (verbose : bool)
    : option (Completion (list Outcome)) :=
  match GPUPool_call device_count
          [arg_of_n_gpus n_gpus; ArgVal (PStr approach); arg_of_init_fn init_fn;
           ArgVal init_args; ArgVal (PDict init_kwargs);
           ArgVal (PFloat model_size_gb); ArgVal (PBool verbose)] with
  | None => None
  | Some (Returned pool) =>
      Some (with_pool pauses (execute s func tasks None) pool).2
  | Some (Raised e) => Some (Raised e)
  | Some Blocked => Some Blocked
  end.

(** ** Specification vocabulary for the ordering *)

(** Two task ids can be compared with [<] when both are integers or both
    are strings. *)
Definition comparable (a b : TaskId) : bool :=
  match a, b with
  | TidInt _, TidInt _ => true
  | TidStr _, TidStr _ => true
  | _, _ => false
  end.

(** Every id can be compared with every other: all are of the kind of the
    first. *)
Definition ids_comparable (ids : list TaskId) : bool :=
  match ids with
  | [] => true
  | x :: rest => forallb (comparable x) rest
  end.

Definition mutually_comparable (l : list Outcome) : bool :=
  ids_comparable (map task_id l).

(** [a <= b], said with [<] alone: [b < a] is false. *)
Definition tid_le (a b : TaskId) : Prop := tid_lt b a = Returned false.

Definition ascending (l : list Outcome) : Prop :=
  StronglySorted (fun x y => tid_le (task_id x) (task_id y)) l.

Definition tid_eqb (a b : TaskId) : bool :=
  match a, b with
  | TidInt x, TidInt y => (x =? y)%Z
  | TidStr s, TidStr t => String.eqb s t
  | _, _ => false
  end.

(** The outcomes of one task id, in list order. *)
Definition with_id (t : TaskId) (l : list Outcome) : list Outcome :=
  List.filter (fun o => tid_eqb (task_id o) t) l.

(** ** Specification vocabulary for the engines *)

(** What the initializer raises for a device, if it raises. *)
Definition init_error (c : Config) (gpu_id : nat) : option string :=
  match init_fn c with
  | Some f =>
      match f gpu_id (init_args c) (init_kwargs c) with
      | Return _ _ => None
      | Raise e => Some e
      end
  | None => None
  end.

(** The models a device gets: what the initializer returns, [None] without
    an initializer. *)
Definition model_of (c : Config) (gpu_id : nat) : PyVal :=
  match init_fn c with
  | Some f =>
      match f gpu_id (init_args c) (init_kwargs c) with
      | Return m _ => m
      | Raise _ => PNone
      end
  | None => PNone
  end.

Definition initializer_ok (c : Config) : Prop :=
  forall gpu_id, gpu_id < n_gpus c -> init_error c gpu_id = None.

(** The Outcome of one task when device [gpu_id] runs it. *)
Definition task_outcome (c : Config) (func : WorkFn) (gpu_id : nat)
    (task : TaskId * PyVal) : Outcome :=
  let '(args, kwargs) := normalize_threading task.2 in
  match func args (enhance kwargs gpu_id (model_of c gpu_id)) with
  | Return r seconds => Success task.1 gpu_id seconds r
  | Raise e => Failure task.1 gpu_id e
  end.

(** The Outcomes of a batch under a given assignment of devices. *)
Definition outcomes_on (c : Config) (func : WorkFn) (devices : list nat)
    (batch : list (TaskId * PyVal)) : list Outcome :=
  zip_with (task_outcome c func) devices batch.

(** [index mod device count] for the indices [i, i+1, ...]. *)
Definition round_robin (n_gpus i count : nat) : list nat :=
  map (fun k => k mod n_gpus) (seq i count).

(** A threading pool that can serve: its models are loaded, or loading
    them will not raise. *)
Definition loaded (c : Config) (t : Threading) : Prop :=
  forall gpu_id, gpu_id < n_gpus c ->
    gpu_id ∈ model_locks t /\ models t !! gpu_id = Some (model_of c gpu_id).

Definition threading_ready (pool : GPUPool) : Prop :=
  approach (cfg pool) = threading /\
  0 < n_gpus (cfg pool) /\
  if initialized (thr pool) then loaded (cfg pool) (thr pool)
  else initializer_ok (cfg pool).

(** A worker process that serves: spawned, or in its loop with the models
    of its device. *)
Definition worker_ok (c : Config) (gpu_id : nat) (w : Worker) : Prop :=
  match w with
  | Spawned => True
  | LoopTop m _ | Waiting m _ | Running m _ _ => m = model_of c gpu_id
  | Exited => False
  end.

Definition workers_ok (c : Config) (ws : list Process) : Prop :=
  length ws = n_gpus c /\
  forall i p, ws !! i = Some p -> proc_gpu p = i /\ worker_ok c i (proc_state p).

(** The task a process has taken off the queue and not yet answered. *)
Definition running_task (p : Process) : list TaskData :=
  match proc_state p with
  | Running _ _ td => [td]
  | _ => []
  end.

Definition in_flight (ws : list Process) : list TaskData :=
  flat_map running_task ws.

Definition queued (queue : list (option TaskData)) : list TaskData :=
  flat_map (fun o => match o with Some td => [td] | None => [] end) queue.

(** A multiprocessing pool between two batches: queues empty, every worker
    serving and none holding a task. *)
Definition multiprocessing_ready (pool : GPUPool) : Prop :=
  approach (cfg pool) = multiprocessing /\
  0 < n_gpus (cfg pool) /\
  initializer_ok (cfg pool) /\
  shutdown_event (mpr pool) = false /\
  task_queue (mpr pool) = [] /\
  result_queue (mpr pool) = [] /\
  if started (mpr pool)
  then workers_ok (cfg pool) (workers (mpr pool)) /\ in_flight (workers (mpr pool)) = []
  else workers (mpr pool) = [].

(** The invariant of a batch in progress: every submitted task is still to
    be put, queued, in flight, or answered by exactly one Outcome that is on
    the result queue or already collected. *)
Record batch_inv (c : Config) (batch : list TaskData) (count : nat)
    (s : Parent * Multiprocessing) : Prop := {
  inv_workers : workers_ok c (workers s.2);
  inv_event : shutdown_event s.2 = false;
  inv_queue : Forall is_Some (task_queue s.2);
  inv_count : remaining s.1 + length (results s.1) = count;
  inv_account : exists answered : list (nat * TaskData),
    Forall (fun d => d.1 < n_gpus c) answered /\
    results s.1 ++ result_queue s.2 ≡ₚ
      map (fun d => run_task d.1 (model_of c d.1) d.2) answered /\
    map snd answered ++ in_flight (workers s.2) ++ queued (task_queue s.2)
      ++ todo s.1 ≡ₚ batch
}.



(** A pool that can serve a batch, under its own approach. *)
Definition pool_ready (pool : GPUPool) : Prop :=
  match approach (cfg pool) with
  | threading => threading_ready pool
  | multiprocessing => multiprocessing_ready pool
  end.



(** ** Normalisation as the specification words it *)

Definition is_mapping (v : PyVal) : bool :=
  match v with PDict _ => true | _ => false end.

Definition mapping_entries (v : PyVal) : Dict :=
  match v with PDict d => d | _ => [] end.

(** The items of a sequence, for the two sequence types the pool looks at. *)
Definition sequence_items (v : PyVal) : option (list PyVal) :=
  match v with
  | PTuple items | PList items => Some items
  | _ => None
  end.

Definition tuple_items (v : PyVal) : option (list PyVal) :=
  match v with
  | PTuple items => Some items
  | _ => None
  end.

(** The four rules of the specification, in priority order, the second
    rule reading "a 2-element sequence whose second element is a mapping". *)
Definition normalize_spec (payload : PyVal) : PyVal * Dict :=
  if is_mapping payload then (PTuple [], mapping_entries payload)
  else
    match sequence_items payload with
    | Some [first; second] =>
        if is_mapping second then (first, mapping_entries second)
        else (payload, [])
    | Some _ => (payload, [])
    | None => (PTuple [payload], [])
    end.

(** The same rules with the second one restricted to tuples: "a 2-element
    tuple whose second element is a mapping". *)
Definition normalize_rules (payload : PyVal) : PyVal * Dict :=
  if is_mapping payload then (PTuple [], mapping_entries payload)
  else
    match tuple_items payload, sequence_items payload with
    | Some [first; second], _ =>
        if is_mapping second then (first, mapping_entries second)
        else (payload, [])
    | _, Some _ => (payload, [])
    | _, None => (PTuple [payload], [])
    end.

(** ** Sample inputs *)

Definition square : WorkFn :=
  fun args kwargs =>
    match args with
    | PTuple [PInt x] => Return (PInt (x * x)) (Qmake 1 1)
    | _ => Raise "square takes one integer"
    end.

(** Fails for a negative [x], like the [sqrt_or_fail] of the scenarios. *)
Definition sqrt_or_fail : WorkFn :=
  fun args kwargs =>
    match dict_get "x" kwargs with
    | Some (PInt x) =>
        if (x <? 0)%Z then Raise "math domain error"
        else Return (PInt (Z.sqrt x)) (Qmake 1 1)
    | _ => Raise "missing x"
    end.

(** An initializer that fails on device 1 and loads a model elsewhere. *)
Definition boom : InitFn :=
  fun gpu_id _ _ =>
    match gpu_id with
    | 1 => Raise "boom"
    | _ => Return (PStr "model") (Qmake 1 1)
    end.

(** The pool [GPUPool(approach, init_fn)] on a machine with [n] devices. *)
Definition new_pool (n : nat) (a : Approach) (init_fn : option InitFn) : GPUPool :=
  {| cfg := {| n_gpus := n; init_fn := init_fn; init_args := PTuple [];
               init_kwargs := []; verbose := true; approach := a |};
     thr := _init_threading;
     mpr := _init_multiprocessing |}.

(** No picks and no turns: the thread pool completes in submission order. *)
Definition in_order : Schedule := {| picks := []; turns := [] |}.

(** Two workers load, the parent puts two tasks, worker 1 takes and answers
    the first, worker 0 the second, the parent collects. *)
Definition crossed : Schedule :=
  {| picks := [];
     turns := [Child 0; Child 1; TheParent; TheParent;
               Child 1; Child 1; Child 1; Child 0; Child 0; Child 0;
               TheParent; TheParent] |}.

(** The same turns with the two workers exchanged: each worker takes the
    task of its own index. *)
Definition straight : Schedule :=
  {| picks := [];
     turns := [Child 0; Child 1; TheParent; TheParent;
               Child 0; Child 0; Child 0; Child 1; Child 1; Child 1;
               TheParent; TheParent] |}.



(** Two workers load, the parent puts three tasks, worker 0 answers the
    first, worker 1 the second, worker 0 the third, the parent collects. *)
Definition taking_turns : Schedule :=
  {| picks := [];
     turns := [Child 0; Child 1; TheParent; TheParent; TheParent;
               Child 0; Child 0; Child 0; Child 1; Child 1; Child 1;
               Child 0; Child 0; Child 0;
               TheParent; TheParent; TheParent] |}.

(** One worker and a queue of size 2: the third [put] of the parent waits
    until the worker has taken a task. *)
Definition back_pressure : Schedule :=
  {| picks := [];
     turns := [Child 0; TheParent; TheParent; TheParent;
               Child 0; Child 0; Child 0; TheParent;
               Child 0; Child 0; Child 0; Child 0; Child 0; Child 0;
               TheParent; TheParent; TheParent] |}.

(** ** Vocabulary for the initialization failure of one device *)

(** The Outcomes of a list that report device [d]. *)
Definition reports (d : nat) (l : list Outcome) : list Outcome :=
  List.filter (fun o => Nat.eqb (gpu_id o) d) l.





(** Three payloads for [sqrt_or_fail], the second negative. *)
Definition three_roots : list PyVal :=
  [PDict [("x", PInt 1)]; PDict [("x", PInt (-1))]; PDict [("x", PInt 4)]].

(** ** Execution statistics *)

(** One entry of [gpu_stats]: the ['count'] and the ['total_time'] of a
    device. Seconds are rationals here, so the sum is exact where the
    floating-point sum of the source is rounded. *)
Record GpuStat := {
  stat_count : nat;
  stat_total_time : Q
}.

(** [gpu_stats]: a [dict] keyed by device, in insertion order. *)
Definition GpuStats : Type := list (nat * GpuStat).

Fixpoint stats_get (g : nat) (gpu_stats : GpuStats) : option GpuStat :=
  match gpu_stats with
  | [] => None
  | (g', st) :: rest => if Nat.eqb g g' then Some st else stats_get g rest
  end.

Fixpoint stats_set (g : nat) (st : GpuStat) (gpu_stats : GpuStats) : GpuStats :=
  match gpu_stats with
  | [] => [(g, st)]
  | (g', st') :: rest =>
      if Nat.eqb g g' then (g, st) :: rest else (g', st') :: stats_set g st rest
  end.

(** The body of the loop over [successful], lines 402-406: a new device
    gets an entry of zeros, then its count and its time go up. Reading
    ['processing_time'] from a dictionary without it is a [KeyError]. *)
Definition tally (r : Outcome) (gpu_stats : GpuStats) : Completion GpuStats :=
  let g := gpu_id r in
  let gpu_stats :=
    match stats_get g gpu_stats with
    | None => stats_set g {| stat_count := 0; stat_total_time := 0%Q |} gpu_stats
    | Some _ => gpu_stats
    end in
  match stats_get g gpu_stats, processing_time r with
  | Some st, Some seconds =>
      Returned
        (stats_set g {| stat_count := stat_count st + 1;
                        stat_total_time := Qplus (stat_total_time st) seconds |}
           gpu_stats)
  | _, _ => Raised KeyError
  end.

Fixpoint tally_all (successful : list Outcome) (gpu_stats : GpuStats)
    : Completion GpuStats :=
  match successful with
  | [] => Returned gpu_stats
  | r :: rest =>
      do gpu_stats <- tally r gpu_stats;
      tally_all rest gpu_stats
  end.

(** A loop that builds one printed line per element. *)
Fixpoint for_each {A B} (f : A -> Completion B) (l : list A) : Completion (list B) :=
  match l with
  | [] => Returned []
  | x :: rest =>
      do y <- f x;
      do ys <- for_each f rest;
      Returned (y :: ys)
  end.

(** The line of a failed run: its task id and its ['error']. *)
Definition failed_line (r : Outcome) : Completion (TaskId * string) :=
  match error r with
  | Some e => Returned (task_id r, e)
  | None => Raised KeyError
  end.

(** The line of a device: its id, its count and
    [stats['total_time'] / stats['count']]. *)
Definition gpu_line (entry : nat * GpuStat) : Completion (nat * nat * Q) :=
  let '(g, st) := entry in
  match stat_count st with
  | 0 => Raised ZeroDivisionError
  | S _ =>
      Returned (g, stat_count st,
                Qdiv (stat_total_time st) (inject_Z (Z.of_nat (stat_count st))))
  end.

(** What [_print_stats] prints, as data: the three totals, the failed
    runs, and the line of each device that completed a task. *)
Record Statistics := {
  total_tasks : nat;
  total_successful : nat;
  total_failed : nat;
  failed_runs : list (TaskId * string);
  gpu_statistics : list (nat * nat * Q)
}.

(** [_print_stats]. *)
Definition _print_stats (results : list Outcome) : Completion Statistics :=
  let successful := List.filter success results in
  let failed := List.filter (fun r => negb (success r)) results in
  do failed_runs <- for_each failed_line failed;
  do gpu_lines <-
    match successful with
    | [] => Returned []
    | _ =>
        do gpu_stats <- tally_all successful [];
        for_each gpu_line gpu_stats
    end;
  Returned {| total_tasks := length results;
              total_successful := length successful;
              total_failed := length failed;
              failed_runs := failed_runs;
              gpu_statistics := gpu_lines |}.

(** The successful Outcomes of a list that report device [g], and the
    seconds they took, added up in list order. *)
Definition completed_on (g : nat) (l : list Outcome) : list Outcome :=
  List.filter (fun r => success r && Nat.eqb (gpu_id r) g) l.

Definition seconds_on (g : nat) (l : list Outcome) : Q :=
  foldl (fun total r => Qplus total (default 0%Q (processing_time r))) 0%Q
    (completed_on g l).

(** What [gpu_stats] holds after the successful Outcomes [seen]: an entry
    for each device that completed a task, with the number of its tasks
    and their seconds. *)
Definition tallied (gs : GpuStats) (seen : list Outcome) : Prop :=
  NoDup (map fst gs) /\
  forall g,
    stats_get g gs =
      match completed_on g seen with
      | [] => None
      | _ => Some {| stat_count := length (completed_on g seen);
                     stat_total_time := seconds_on g seen |}
      end.

(** ** Vocabulary for the further properties *)

(** [models is not None]. *)
Definition is_not_None (v : PyVal) : bool :=
  match v with PNone => false | _ => true end.

(** Task ids in strictly increasing order, each [<] the ones after it. *)
Definition strictly_ascending (ids : list TaskId) : Prop :=
  StronglySorted (fun a b => tid_lt a b = Returned true) ids.





(** A threading pool as [execute] keeps it, whatever its initializer does:
    if the models count as loaded, every device has its lock and its
    models. *)
Definition threading_kept (pool : GPUPool) : Prop :=
  approach (cfg pool) = threading /\
  (initialized (thr pool) = true -> loaded (cfg pool) (thr pool)).

(** The same pool with another initializer. *)
Definition with_init_fn (f : option InitFn) (pool : GPUPool) : GPUPool :=
  {| cfg := {| n_gpus := n_gpus (cfg pool); init_fn := f;
               init_args := init_args (cfg pool);
               init_kwargs := init_kwargs (cfg pool);
               verbose := verbose (cfg pool); approach := approach (cfg pool) |};
     thr := thr pool; mpr := mpr pool |}.





(** ** Vocabulary for fair schedules *)






(** * Lemmas *)

(** ** The order on task ids *)

Lemma string_compare_refl (s : string) : String.compare s s = Eq.
Proof.
  induction s as [|a s IH]; simpl; [done|].
  unfold Ascii.compare. by rewrite N.compare_refl.
Qed.

Lemma string_compare_lt_trans (s t u : string) :
  String.compare s t = Lt -> String.compare t u = Lt -> String.compare s u = Lt.
Proof.
  revert t u. induction s as [|a s IH]; intros [|b t] [|c u]; simpl; try done.
  unfold Ascii.compare.
  destruct (N.compare_spec (N_of_ascii a) (N_of_ascii b)) as [Hab|Hab|Hab];
    destruct (N.compare_spec (N_of_ascii b) (N_of_ascii c)) as [Hbc|Hbc|Hbc];
    try done; intros H1 H2.
  - rewrite Hab, Hbc, N.compare_refl. eauto.
  - rewrite Hab. by apply N.compare_lt_iff in Hbc as ->.
  - rewrite <- Hbc. by apply N.compare_lt_iff in Hab as ->.
  - assert (N_of_ascii a < N_of_ascii c)%N as Hac by lia.
    by apply N.compare_lt_iff in Hac as ->.
Qed.

Lemma string_ltb_irrefl (s : string) : String.ltb s s = false.
Proof. unfold String.ltb. by rewrite string_compare_refl. Qed.

(** [s <= t] and [t <= u] give [s <= u], each read as "the converse [<] is
    false". *)
Lemma string_ltb_false_trans (s t u : string) :
  String.ltb t s = false -> String.ltb u t = false -> String.ltb u s = false.
Proof.
  unfold String.ltb. intros Hts Hut.
  destruct (String.compare u s) eqn:Hus; [done| |done]. exfalso.
  destruct (String.compare t s) eqn:Ets; [|done|].
  - apply String.compare_eq_iff in Ets as ->. by rewrite Hus in Hut.
  - rewrite String.compare_antisym in Ets.
    destruct (String.compare s t) eqn:Est; try done.
    by rewrite (string_compare_lt_trans u s t Hus Est) in Hut.
Qed.

Lemma comparable_refl a : comparable a a = true.
Proof. by destruct a. Qed.

Lemma comparable_sym a b : comparable a b = comparable b a.
Proof. by destruct a, b. Qed.

Lemma comparable_trans a b c :
  comparable a b = true -> comparable b c = true -> comparable a c = true.
Proof. by destruct a, b, c. Qed.

Lemma tid_lt_comparable a b :
  comparable a b = true -> exists r, tid_lt a b = Returned r.
Proof. destruct a, b; simpl; try done; eauto. Qed.

Lemma tid_lt_incomparable a b :
  comparable a b = false -> tid_lt a b = Raised TypeError.
Proof. by destruct a, b. Qed.

Lemma tid_lt_returned a b r : tid_lt a b = Returned r -> comparable a b = true.
Proof. by destruct a, b. Qed.

Lemma tid_le_refl a : tid_le a a.
Proof.
  destruct a; unfold tid_le; simpl; f_equal;
    [apply Z.ltb_irrefl | apply string_ltb_irrefl].
Qed.

Lemma tid_le_trans a b c : tid_le a b -> tid_le b c -> tid_le a c.
Proof.
  unfold tid_le. destruct a, b, c; simpl; try done; intros [= H1] [= H2]; f_equal.
  - lia.
  - eauto using string_ltb_false_trans.
Qed.

(** [a < b] excludes [b < a]. *)
Lemma tid_lt_le a b : tid_lt a b = Returned true -> tid_le a b.
Proof.
  unfold tid_le. destruct a, b; simpl; try done; intros [= H]; f_equal.
  - lia.
  - unfold String.ltb in *. rewrite String.compare_antisym.
    by destruct (String.compare s s0).
Qed.

Lemma tid_lt_true_neq a b : tid_lt a b = Returned true -> tid_eqb a b = false.
Proof.
  destruct a, b; simpl; try done; intros [= H].
  - lia.
  - destruct (String.eqb_spec s s0) as [->|]; [|done].
    by rewrite string_ltb_irrefl in H.
Qed.

Lemma tid_eqb_eq a b : tid_eqb a b = true <-> a = b.
Proof.
  destruct a, b; simpl; try (split; done).
  - rewrite Z.eqb_eq. split; congruence.
  - rewrite String.eqb_eq. split; congruence.
Qed.

Create HintDb task_ids discriminated.
#[local] Hint Resolve comparable_refl comparable_trans tid_le_refl tid_lt_le
  tid_le_trans : task_ids.

(** ** [sorted] *)

Lemma ids_comparable_cons x ids :
  ids_comparable (x :: ids) = true <-> Forall (fun y => comparable x y = true) ids.
Proof.
  simpl. induction ids as [|y ids IH]; simpl.
  - split; [constructor|done].
  - rewrite andb_true_iff, Forall_cons, IH. done.
Qed.

Lemma ids_comparable_pairwise ids :
  ids_comparable ids = true <->
  forall x y, x ∈ ids -> y ∈ ids -> comparable x y = true.
Proof.
  destruct ids as [|a ids].
  - split; [intros _ x y Hx; by apply elem_of_nil in Hx | done].
  - rewrite ids_comparable_cons, Forall_forall. split.
    + intros H x y Hx Hy.
      assert (forall z, z ∈ a :: ids -> comparable a z = true) as Ha.
      { intros z [->|Hz]%elem_of_cons; [apply comparable_refl|by apply H]. }
      eapply comparable_trans; [|by apply Ha].
      rewrite comparable_sym. by apply Ha.
    + intros H y Hy. apply H; [left|by right].
Qed.

Lemma ids_comparable_perm ids ids' :
  ids ≡ₚ ids' -> ids_comparable ids = true -> ids_comparable ids' = true.
Proof.
  intros HP. rewrite !ids_comparable_pairwise.
  intros H x y Hx Hy. apply H; by rewrite HP.
Qed.

Lemma ids_comparable_tail x ids :
  ids_comparable (x :: ids) = true -> ids_comparable ids = true.
Proof.
  rewrite !ids_comparable_pairwise. intros H a b Ha Hb. apply H; by right.
Qed.

Lemma mutually_comparable_cons x l :
  mutually_comparable (x :: l) = true <->
  Forall (fun y => comparable (task_id x) (task_id y) = true) l.
Proof.
  unfold mutually_comparable. simpl map. rewrite ids_comparable_cons.
  by rewrite Forall_fmap.
Qed.

Lemma mutually_comparable_tail x l :
  mutually_comparable (x :: l) = true -> mutually_comparable l = true.
Proof. apply ids_comparable_tail. Qed.

Lemma mutually_comparable_perm l l' :
  l ≡ₚ l' -> mutually_comparable l = true -> mutually_comparable l' = true.
Proof. intros HP. apply ids_comparable_perm. by rewrite HP. Qed.

Lemma insert_sorted_comparable x l :
  Forall (fun y => comparable (task_id x) (task_id y) = true) l ->
  exists l', insert_sorted x l = Returned l' /\ l' ≡ₚ x :: l /\
    (ascending l -> ascending l') /\
    (forall t, with_id t l' = with_id t (x :: l)).
Proof.
  induction 1 as [|y l Hy Hl IH]; simpl.
  - eexists; repeat split; eauto. intros _. repeat constructor.
  - rewrite comparable_sym in Hy.
    destruct (tid_lt_comparable _ _ Hy) as [[] Hlt]; rewrite Hlt; simpl.
    + destruct IH as (l' & -> & HP & Hasc & Hst). simpl.
      eexists; split; [done|]. split; [by rewrite HP, Permutation_swap|]. split.
      * intros Hs. apply StronglySorted_inv in Hs as [Hs Hall].
        constructor; [by apply Hasc|].
        rewrite HP. constructor; [by apply tid_lt_le|done].
      * intros t. unfold with_id in *. simpl. rewrite Hst. simpl.
        destruct (tid_eqb (task_id y) t) eqn:Ey; [|done].
        apply tid_eqb_eq in Ey as <-.
        apply tid_lt_true_neq in Hlt.
        assert (tid_eqb (task_id x) (task_id y) = false) as ->; [|done].
        destruct (tid_eqb (task_id x) (task_id y)) eqn:E; [|done].
        apply tid_eqb_eq in E. rewrite E in Hlt.
        by rewrite (proj2 (tid_eqb_eq _ _) eq_refl) in Hlt.
    + eexists; split; [done|]. split; [done|]. split; [|done].
      intros Hs. constructor; [done|]. constructor; [done|].
      apply StronglySorted_inv in Hs as [_ Hall].
      eapply Forall_impl; [exact Hall|]. simpl. intros z Hz.
      eapply tid_le_trans; [exact Hlt|done].
Qed.

Lemma insert_sorted_incomparable x y l :
  comparable (task_id x) (task_id y) = false ->
  insert_sorted x (y :: l) = Raised TypeError.
Proof.
  intros H. simpl. rewrite comparable_sym in H.
  by rewrite (tid_lt_incomparable _ _ H).
Qed.

(** What [sorted] does: on mutually comparable ids the stable ascending
    arrangement, otherwise [TypeError]. *)
Lemma sorted_by_task_id_spec (l : list Outcome) :
  if mutually_comparable l
  then exists l', sorted_by_task_id l = Returned l' /\ l' ≡ₚ l /\ ascending l' /\
         (forall t, with_id t l' = with_id t l)
  else sorted_by_task_id l = Raised TypeError.
Proof.
  induction l as [|x l IH].
  - simpl. eexists; repeat split; eauto. constructor.
  - destruct (mutually_comparable (x :: l)) eqn:Hx.
    + rewrite (mutually_comparable_tail _ _ Hx) in IH.
      destruct IH as (l' & Hl' & HP & Hasc & Hst). simpl. rewrite Hl'. simpl.
      apply mutually_comparable_cons in Hx. rewrite <- HP in Hx.
      destruct (insert_sorted_comparable x l' Hx) as (l'' & -> & HP' & Hasc' & Hst').
      eexists; split; [done|]. split; [by rewrite HP', HP|]. split; [eauto|].
      intros t. rewrite Hst'. unfold with_id in *. simpl. by rewrite Hst.
    + destruct (mutually_comparable l) eqn:Hl.
      * destruct IH as (l' & Hl' & HP & _). simpl. rewrite Hl'. simpl.
        destruct l' as [|y l'].
        { apply Permutation_nil_l in HP as <-. done. }
        apply insert_sorted_incomparable.
        destruct (comparable (task_id x) (task_id y)) eqn:Hxy; [|done].
        exfalso. assert (mutually_comparable (x :: l) = true); [|congruence].
        apply mutually_comparable_cons. rewrite <- HP.
        constructor; [done|].
        assert (mutually_comparable (y :: l') = true) as Hyl
          by (eapply mutually_comparable_perm; [symmetry; exact HP|done]).
        apply mutually_comparable_cons in Hyl.
        eapply Forall_impl; [exact Hyl|]. simpl. eauto with task_ids.
      * simpl. by rewrite IH.
Qed.

(** ** The threading engine *)

Lemma load_models_ok c gpu_ids t :
  (forall g, g ∈ gpu_ids -> init_error c g = None) ->
  exists t', load_models c gpu_ids t = (t', Returned tt) /\
    initialized t' = initialized t /\
    (forall g, g ∈ gpu_ids ->
       g ∈ model_locks t' /\ models t' !! g = Some (model_of c g)) /\
    (forall g, g ∉ gpu_ids ->
       (g ∈ model_locks t' <-> g ∈ model_locks t) /\ models t' !! g = models t !! g).
Proof.
  revert t. induction gpu_ids as [|g0 rest IH]; intros t Hok; simpl.
  - exists t. split; [done|]. split; [done|]. split; [|done].
    intros g Hg. by apply elem_of_nil in Hg.
  - assert (init_error c g0 = None) as H0 by (apply Hok; left).
    assert (exists m, load_models c (g0 :: rest) t
              = load_models c rest (set_model g0 m t) /\ model_of c g0 = m)
      as (m & Heq & Hm).
    { unfold init_error, model_of in *. simpl.
      destruct (init_fn c) as [f|]; [|by eexists].
      destruct (f g0 (init_args c) (init_kwargs c)); [by eexists|done]. }
    simpl in Heq. rewrite Heq.
    destruct (IH (set_model g0 m t)) as (t' & Hl & Hi & Hin & Hout).
    { intros g Hg. apply Hok. by right. }
    exists t'. split; [done|]. split; [done|]. split.
    + intros g Hg. destruct (decide (g ∈ rest)) as [Hr|Hr]; [by apply Hin|].
      apply elem_of_cons in Hg as [->|]; [|done].
      destruct (Hout g0 Hr) as [Hlk Hmd]. split.
      * apply Hlk. simpl. apply elem_of_union_l. by apply elem_of_singleton.
      * rewrite Hmd. simpl. by rewrite lookup_insert_eq, Hm.
    + intros g1 Hg. apply not_elem_of_cons in Hg as [Hne Hr].
      destruct (Hout g1 Hr) as [Hlk Hmd]. split.
      * rewrite Hlk. simpl. rewrite elem_of_union, elem_of_singleton.
        split; [intros [?|?]; done|by right].
      * rewrite Hmd. simpl. by rewrite lookup_insert_ne.
Qed.

Lemma load_models_raises c before d after t e :
  (forall g, g ∈ before -> init_error c g = None) ->
  init_error c d = Some e ->
  exists t', load_models c (before ++ d :: after) t = (t', Raised (Thrown e)) /\
    initialized t' = initialized t.
Proof.
  revert t. induction before as [|g0 rest IH]; intros t Hok He; simpl.
  - unfold init_error in He. destruct (init_fn c) as [f|]; [|done].
    destruct (f d (init_args c) (init_kwargs c)); [done|].
    injection He as ->. by eexists.
  - assert (init_error c g0 = None) as H0 by (apply Hok; left).
    assert (forall g, g ∈ rest -> init_error c g = None) as Hrest
      by (intros g Hg; apply Hok; by right).
    unfold init_error in H0. destruct (init_fn c) as [f|] eqn:Hf.
    + destruct (f g0 (init_args c) (init_kwargs c)) as [v secs|]; [|done].
      destruct (IH (set_model g0 v t) Hrest He) as (t' & -> & Hi). eauto.
    + destruct (IH (set_model g0 PNone t) Hrest He) as (t' & -> & Hi). eauto.
Qed.

Lemma initialize_ok c t :
  initializer_ok c ->
  exists t', _initialize_models_threading c t = (t', Returned tt) /\
    initialized t' = true /\ loaded c t'.
Proof.
  intros Hok. unfold _initialize_models_threading.
  destruct (load_models_ok c (seq 0 (n_gpus c)) t) as (t' & -> & _ & Hin & _).
  { intros g Hg. apply Hok. apply elem_of_seq in Hg. lia. }
  eexists; split; [done|]. split; [done|].
  intros g Hg. apply (Hin g). apply elem_of_seq. lia.
Qed.

Lemma prepare_tasks_round_robin n i batch :
  0 < n ->
  prepare_tasks n i batch =
    Returned (zip_with (fun g task => (task.1, g, (normalize_threading task.2).1,
                                       (normalize_threading task.2).2))
                (round_robin n i (length batch)) batch).
Proof.
  intros Hn. revert i. induction batch as [|[tid task] rest IH]; intros i; [done|].
  simpl. unfold py_mod. destruct n as [|n']; [lia|]. simpl.
  destruct (normalize_threading task) as [args kwargs] eqn:Hnorm.
  rewrite IH. done.
Qed.

Lemma round_robin_length n i count : length (round_robin n i count) = count.
Proof. unfold round_robin. by rewrite length_map, length_seq. Qed.

Lemma round_robin_bound n i count :
  0 < n -> Forall (fun g => g < n) (round_robin n i count).
Proof.
  intros Hn. unfold round_robin. apply Forall_fmap, Forall_forall.
  intros k _. simpl. apply Nat.mod_upper_bound. lia.
Qed.

Lemma worker_thread_loaded c t func (devices : list nat)
    (batch : list (TaskId * PyVal)) :
  loaded c t -> Forall (fun g => g < n_gpus c) devices ->
  map (worker_thread t func)
    (zip_with (fun g task => (task.1, g, (normalize_threading task.2).1,
                              (normalize_threading task.2).2)) devices batch)
  = map Returned (outcomes_on c func devices batch).
Proof.
  intros Hl Hd. revert batch. induction Hd as [|g devices Hg Hd IH];
    intros [|[tid task] batch]; simpl; try done.
  f_equal; [|apply IH].
  unfold worker_thread, task_outcome. simpl.
  destruct (Hl g Hg) as [Hlock ->].
  rewrite decide_True by done.
  destruct (normalize_threading task) as [args kwargs]. simpl.
  by destruct (func args _).
Qed.

Lemma extract_Some {A} k (l : list A) :
  k < length l -> exists x rest, extract k l = Some (x, rest) /\ l ≡ₚ x :: rest.
Proof.
  revert k. induction l as [|y l IH]; intros k Hk; simpl in *; [lia|].
  destruct k as [|k]; simpl; [by eexists _, _|].
  destruct (IH k) as (x & rest & -> & HP); [lia|].
  eexists _, _. split; [done|]. by rewrite HP, Permutation_swap.
Qed.

Lemma extract_fmap {A B} (f : A -> B) k (l : list A) :
  extract k (map f l) = prod_map f (map f) <$> extract k l.
Proof.
  revert k. induction l as [|y l IH]; intros k; simpl; [done|].
  destruct k as [|k]; simpl; [done|]. rewrite IH. by destruct (extract k l) as [[]|].
Qed.

Lemma as_completed_from_fmap {A B} (f : A -> B) fuel w picks (l : list A) :
  as_completed_from fuel w picks (map f l) = map f (as_completed_from fuel w picks l).
Proof.
  revert picks l. induction fuel as [|fuel IH]; intros picks l; simpl; [done|].
  rewrite length_map, extract_fmap.
  destruct (extract _ l) as [[x rest]|]; simpl; [|done]. by rewrite IH.
Qed.

Lemma as_completed_from_perm {A} fuel w picks (l : list A) :
  0 < w -> length l = fuel -> as_completed_from fuel w picks l ≡ₚ l.
Proof.
  intros Hw. revert picks l. induction fuel as [|fuel IH]; intros picks l Hlen; simpl.
  - by destruct l.
  - match goal with |- context [extract ?k0 l] => remember k0 as k eqn:Ek end.
    assert (k < length l) as Hk.
    { subst k. destruct picks as [|p ?]; [lia|].
      pose proof (Nat.mod_upper_bound p (w `min` length l)). lia. }
    destruct (extract_Some k l Hk) as (x & rest & -> & HP).
    rewrite HP. constructor. apply IH.
    apply Permutation_length in HP. simpl in HP. lia.
Qed.

Lemma as_completed_perm {A} w picks (l : list A) :
  0 < w -> as_completed w picks l ≡ₚ l.
Proof. intros. by apply as_completed_from_perm. Qed.

Lemma collect_futures_returned (l : list Outcome) :
  collect_futures (map Returned l) = Returned l.
Proof. induction l as [|x l IH]; simpl; [done|]. by rewrite IH. Qed.

(** A ready threading pool returns, whatever the completion picks: the
    Outcomes of the batch on the round-robin devices, in completion order. *)
Lemma execute_threading_ready picks func tasks task_ids pool :
  threading_ready pool ->
  exists pool',
    _execute_threading picks func tasks task_ids pool =
      (pool', Returned (as_completed (n_gpus (cfg pool)) picks
                          (outcomes_on (cfg pool) func
                             (round_robin (n_gpus (cfg pool)) 0
                                (length (zip task_ids tasks)))
                             (zip task_ids tasks)))) /\
    cfg pool' = cfg pool /\ mpr pool' = mpr pool /\
    initialized (thr pool') = true /\ threading_ready pool'.
Proof.
  intros (Happ & Hn & Hready). unfold _execute_threading.
  assert (exists t,
    (if initialized (thr pool) then (thr pool, Returned tt)
     else _initialize_models_threading (cfg pool) (thr pool)) = (t, Returned tt) /\
    initialized t = true /\ loaded (cfg pool) t) as (t & -> & Hi & Hl).
  { destruct (initialized (thr pool)) eqn:Hinit; [by eexists|].
    by apply initialize_ok. }
  exists (with_thr pool t). split.
  2:{ split; [done|]. split; [done|]. split; [done|].
      split; [done|]. split; [done|]. simpl. by rewrite Hi. }
  f_equal. simpl. rewrite prepare_tasks_round_robin by done. simpl.
  destruct (n_gpus (cfg pool)) as [|n'] eqn:En; [lia|]. rewrite <- En.
  rewrite (worker_thread_loaded (cfg pool)); [|done|apply round_robin_bound; lia].
  unfold as_completed. rewrite length_map, as_completed_from_fmap.
  apply collect_futures_returned.
Qed.

(** ** The multiprocessing engine *)

Lemma normalize_engines_agree task :
  normalize_multiprocessing task = normalize_threading task.
Proof.
  by destruct task.
Qed.

Lemma run_cons c a turns s : run c (a :: turns) s = run c turns (turn c a s).
Proof. done. Qed.


Lemma flat_map_insert {A B} (f : A -> list B) (ws : list A) i p p' :
  ws !! i = Some p ->
  exists rest, flat_map f ws ≡ₚ f p ++ rest /\
               flat_map f (<[i:=p']> ws) ≡ₚ f p' ++ rest.
Proof.
  revert i. induction ws as [|w ws IH]; intros [|i] Hi; simpl in *; try done.
  - injection Hi as ->. by exists (flat_map f ws).
  - destruct (IH i Hi) as (rest & H1 & H2). exists (f w ++ rest).
    rewrite H1, H2. split; solve_Permutation.
Qed.


Lemma workers_ok_set c ws i p w :
  workers_ok c ws -> ws !! i = Some p -> worker_ok c i w ->
  workers_ok c (set_worker i p w ws).
Proof.
  intros [Hlen Hall] Hi Hw. unfold set_worker. split.
  - by rewrite length_insert.
  - intros j q Hj. destruct (decide (i = j)) as [<-|Hne].
    + rewrite list_lookup_insert_eq in Hj by (by eapply lookup_lt_Some).
      injection Hj as <-. simpl. split; [by apply (Hall i p)|done].
    + rewrite list_lookup_insert_ne in Hj by done. by apply Hall.
Qed.

Lemma in_flight_set ws i p w :
  ws !! i = Some p ->
  exists rest, in_flight ws ≡ₚ running_task p ++ rest /\
    in_flight (set_worker i p w ws)
      ≡ₚ running_task {| proc_gpu := proc_gpu p; proc_state := w |} ++ rest.
Proof. intros Hi. by apply flat_map_insert. Qed.

Lemma queued_app q1 q2 : queued (q1 ++ q2) = queued q1 ++ queued q2.
Proof. unfold queued. by rewrite flat_map_app. Qed.

Lemma queued_length q : Forall is_Some q -> length (queued q) = length q.
Proof.
  induction 1 as [|o q [td ->] _ IH]; simpl; [done|]. by rewrite IH.
Qed.

(** The state of a worker that holds no task contributes nothing to the
    tasks in flight. *)
Ltac holds_no_task :=
  unfold running_task; simpl;
  match goal with
  | H : proc_state _ = _ |- _ => by rewrite H
  end.

Section Batch.
(** A batch of a pool whose initializer does not raise. *)
Context (c : Config) (Hinit : initializer_ok c).
Context (batch : list TaskData) (count : nat).

(** A turn of the parent keeps the invariant. *)
Lemma parent_step_inv p m :
  batch_inv c batch count (p, m) ->
  batch_inv c batch count (parent_step c p m).
Proof.
  intros Hinv.
  pose proof Hinv as [Hw He Hq Hc (answered & Hdev & Hres & Hacc)]; simpl in *.
  unfold parent_step. destruct (todo p) as [|td rest] eqn:Htodo.
  - destruct (remaining p) as [|k] eqn:Hrem; [done|].
    destruct (result_queue m) as [|r queue] eqn:Hrq; [done|].
    split; simpl; try done.
    + rewrite length_app. simpl. lia.
    + exists answered. split; [done|]. split; [|done].
      by rewrite <- Hres, <- app_assoc.
  - destruct (full c (task_queue m)); [done|].
    split; simpl; try done.
    + apply Forall_app. split; [done|]. repeat constructor. by eexists.
    + exists answered. split; [done|]. split; [done|].
      rewrite <- Hacc, queued_app. simpl. solve_Permutation.
Qed.

Lemma in_flight_idle ws i p w :
  ws !! i = Some p -> running_task p = [] ->
  running_task {| proc_gpu := proc_gpu p; proc_state := w |} = [] ->
  in_flight (set_worker i p w ws) ≡ₚ in_flight ws.
Proof.
  intros Hi Hp Hw. destruct (in_flight_set ws i p w Hi) as (rest & H1 & H2).
  by rewrite H1, H2, Hp, Hw.
Qed.

Lemma in_flight_take ws i p m n td :
  ws !! i = Some p -> running_task p = [] ->
  in_flight (set_worker i p (Running m n td) ws) ≡ₚ td :: in_flight ws.
Proof.
  intros Hi Hp.
  destruct (in_flight_set ws i p (Running m n td) Hi) as (rest & H1 & H2).
  by rewrite H1, H2, Hp.
Qed.

Lemma in_flight_finish ws i p w td :
  ws !! i = Some p -> running_task p = [td] ->
  running_task {| proc_gpu := proc_gpu p; proc_state := w |} = [] ->
  in_flight ws ≡ₚ td :: in_flight (set_worker i p w ws).
Proof.
  intros Hi Hp Hw. destruct (in_flight_set ws i p w Hi) as (rest & H1 & H2).
  by rewrite H1, H2, Hp, Hw.
Qed.

(** A turn of a worker keeps the invariant. *)
Lemma worker_turn_inv p i m :
  batch_inv c batch count (p, m) ->
  batch_inv c batch count (p, _worker_process c i m).
Proof.
  intros Hinv.
  pose proof Hinv as [Hw He Hq Hc (answered & Hdev & Hres & Hacc)].
  simpl in *. unfold _worker_process.
  destruct (workers m !! i) as [pr|] eqn:Hi; [|done].
  destruct (proj2 Hw i pr Hi) as [Hgpu Hok].
  assert (i < n_gpus c) as Hlt
    by (rewrite <- (proj1 Hw); by eapply lookup_lt_Some).
  destruct (proc_state pr) as [|mo n|mo n|mo n td|] eqn:Hst; simpl in Hok.
  - (* Spawned: the models load *)
    assert (exists mo,
      match init_fn c with
      | Some f =>
          match f (proc_gpu pr) (init_args c) (init_kwargs c) with
          | Return models _ =>
              with_queues m (task_queue m) (result_queue m)
                (set_worker i pr (LoopTop models 0) (workers m))
          | Raise e =>
              with_queues m (task_queue m)
                (result_queue m ++ [init_failed (proc_gpu pr) e])
                (set_worker i pr Exited (workers m))
          end
      | None =>
          with_queues m (task_queue m) (result_queue m)
            (set_worker i pr (LoopTop PNone 0) (workers m))
      end = with_queues m (task_queue m) (result_queue m)
              (set_worker i pr (LoopTop mo 0) (workers m))
      /\ mo = model_of c i) as (mo & -> & Hmo).
    { pose proof (Hinit i Hlt) as Hi0. unfold init_error, model_of in *.
      rewrite Hgpu.
      destruct (init_fn c) as [f|]; [|by eexists].
      destruct (f i (init_args c) (init_kwargs c)); [by eexists|done]. }
    split; simpl; try done.
    + by apply workers_ok_set.
    + exists answered. split; [done|]. split; [done|].
      rewrite in_flight_idle; try done. holds_no_task.
  - (* LoopTop: the event is not set *)
    rewrite He. split; simpl; try done.
    + by apply workers_ok_set.
    + exists answered. split; [done|]. split; [done|].
      rewrite in_flight_idle; try done. holds_no_task.
  - (* Waiting *)
    destruct (task_queue m) as [|[td|] queue] eqn:Htq.
    + split; simpl; try done.
      * by apply workers_ok_set.
      * exists answered. split; [done|]. split; [done|].
        rewrite in_flight_idle; try done. holds_no_task.
    + split; simpl; try done.
      * by apply workers_ok_set.
      * by apply Forall_cons in Hq as [_ ?].
      * exists answered. split; [done|]. split; [done|].
        rewrite in_flight_take, <- Hacc; [|done|].
        -- simpl. solve_Permutation.
        -- holds_no_task.
    + apply Forall_cons in Hq as [[? [=]] _].
  - (* Running: the outcome is put *)
    split; simpl; try done.
    + by apply workers_ok_set.
    + exists (answered ++ [(i, td)]). split.
      { apply Forall_app. split; [done|]. by repeat constructor. }
      split.
      * rewrite map_app, <- Hres. simpl. rewrite Hgpu, Hok.
        by rewrite !app_assoc.
      * rewrite <- Hacc, map_app. simpl.
        rewrite (in_flight_finish (workers m) i pr (LoopTop mo n) td); try done.
        -- solve_Permutation.
        -- holds_no_task.
  - done.
Qed.

Lemma turn_inv a s :
  batch_inv c batch count s -> batch_inv c batch count (turn c a s).
Proof.
  intros Hinv. destruct s as [p m], a as [|i]; simpl.
  - by apply parent_step_inv.
  - by apply worker_turn_inv.
Qed.

Lemma run_inv turns s :
  batch_inv c batch count s -> batch_inv c batch count (run c turns s).
Proof.
  revert s. induction turns as [|a turns IH]; intros s Hinv; [done|].
  rewrite run_cons. by apply IH, turn_inv.
Qed.

End Batch.

Lemma in_flight_spawned (gpu_ids : list nat) :
  in_flight (map (fun g => {| proc_gpu := g; proc_state := Spawned |}) gpu_ids) = [].
Proof. induction gpu_ids as [|g l IH]; simpl; [done|]. exact IH. Qed.

Lemma workers_ok_spawned c :
  workers_ok c (map (fun g => {| proc_gpu := g; proc_state := Spawned |})
                  (seq 0 (n_gpus c))).
Proof.
  split; [by rewrite length_map, length_seq|].
  intros i p Hi. apply list_lookup_fmap_Some in Hi as (g & -> & Hg).
  apply lookup_seq in Hg as [-> _]. done.
Qed.

(** The batch starts in the invariant: first use starts the workers. *)
Lemma batch_inv_start pool batch count :
  multiprocessing_ready pool ->
  exists pool1,
  (if started (mpr pool) then pool else (start pool).1) = pool1 /\
  cfg pool1 = cfg pool /\ started (mpr pool1) = true /\
  thr pool1 = thr pool /\
  batch_inv (cfg pool) batch count
    ({| todo := batch; remaining := count; results := [] |}, mpr pool1).
Proof.
  intros (Happ & Hn & Hinit & He & Htq & Hrq & Hst).
  eexists. split; [done|].
  destruct (started (mpr pool)) eqn:Hs.
  - destruct Hst as [Hw Hfl]. split; [done|]. split; [done|]. split; [done|].
    split; simpl; try done.
    + rewrite Htq. constructor.
    + exists []. split; [constructor|]. rewrite Hrq, Htq, Hfl. done.
  - unfold start. rewrite Happ, Hs. simpl. split; [done|]. split; [done|].
    split; [done|]. rewrite Hst. simpl.
    split; simpl; try done.
    + apply workers_ok_spawned.
    + rewrite Htq. constructor.
    + exists []. split; [constructor|].
      rewrite Hrq, Htq, in_flight_spawned. done.
Qed.

Lemma length_zero_nil {A} (l : list A) : length l = 0 -> l = [].
Proof. by destruct l. Qed.

(** When the parent has collected everything, what it holds is one Outcome
    per task of the batch, each from some device in range, and nothing is
    left anywhere else. *)
Lemma batch_inv_done c batch s :
  batch_inv c batch (length batch) s ->
  parent_done s.1 = true ->
  result_queue s.2 = [] /\ task_queue s.2 = [] /\ in_flight (workers s.2) = [] /\
  exists devices, length devices = length batch /\
    Forall (fun g => g < n_gpus c) devices /\
    results s.1 ≡ₚ
      zip_with (fun g td => run_task g (model_of c g) td) devices batch.
Proof.
  intros [Hw He Hq Hc (answered & Hdev & Hres & Hacc)] Hdone.
  destruct s as [p m]; simpl in *. unfold parent_done in Hdone.
  destruct (todo p) eqn:Htodo; [|done]. destruct (remaining p) eqn:Hrem; [|done].
  pose proof (Permutation_length Hres) as L1.
  pose proof (Permutation_length Hacc) as L2.
  rewrite length_app, length_map in L1.
  rewrite !length_app, length_map, (queued_length _ Hq) in L2. simpl in *.
  assert (result_queue m = []) as Hrq by (apply length_zero_nil; lia).
  assert (task_queue m = []) as Htq by (apply length_zero_nil; lia).
  assert (in_flight (workers m) = []) as Hfl by (apply length_zero_nil; lia).
  split; [done|]. split; [done|]. split; [done|].
  rewrite Hrq, Htq, Hfl in *. simpl in *. rewrite !app_nil_r in *.
  symmetry in Hacc. apply Permutation_map_inv in Hacc as (answered' & -> & HP).
  exists (map fst answered'). split; [by rewrite !length_map|]. split.
  - apply Forall_fmap. rewrite <- HP. done.
  - rewrite Hres, HP. clear. induction answered' as [|[g td] l IH]; simpl; [done|].
    by rewrite IH.
Qed.

Lemma outcomes_of_submissions c func devices tasks task_ids :
  zip_with (fun g td => run_task g (model_of c g) td) devices
    (submissions func tasks task_ids)
  = outcomes_on c func devices (zip task_ids tasks).
Proof.
  unfold submissions, outcomes_on.
  revert devices. induction (zip task_ids tasks) as [|[tid task] l IH];
    intros [|g devices]; simpl; try done.
  rewrite IH. f_equal. unfold run_task, task_outcome. simpl.
  rewrite normalize_engines_agree. by destruct (normalize_threading task).
Qed.



Section Progress.
(** A batch of a pool with a device and an initializer that does not
    raise. *)
Context (c : Config) (Hinit : initializer_ok c) (Hn : 0 < n_gpus c).
Context (batch : list TaskData).




End Progress.

(** ** Outcomes of a batch *)

Lemma task_outcome_id c func g task : task_id (task_outcome c func g task) = task.1.
Proof.
  unfold task_outcome. destruct (normalize_threading task.2) as [args kwargs].
  by destruct (func args _).
Qed.

Lemma task_outcome_gpu c func g task : gpu_id (task_outcome c func g task) = g.
Proof.
  unfold task_outcome. destruct (normalize_threading task.2) as [args kwargs].
  by destruct (func args _).
Qed.



Lemma outcomes_on_ids c func devices (batch : list (TaskId * PyVal)) :
  length devices = length batch ->
  map task_id (outcomes_on c func devices batch) = map fst batch.
Proof.
  unfold outcomes_on. revert batch.
  induction devices as [|g devices IH]; intros [|t batch] Hlen; simpl in *; try done.
  rewrite task_outcome_id, IH; [done|lia].
Qed.


Lemma zip_fst_full {A B} (l : list A) (k : list B) :
  length k <= length l -> map fst (zip l k) = take (length k) l.
Proof.
  revert k. induction l as [|x l IH]; intros [|y k] Hlen; simpl in *;
    try done; try lia.
  rewrite IH; [done|lia].
Qed.

Lemma zip_length_full {A B} (l : list A) (k : list B) :
  length k <= length l -> length (zip l k) = length k.
Proof. intros H. rewrite length_zip_with. lia. Qed.

(** ** The multiprocessing engine, batch by batch *)

Lemma turn_flags c a s :
  started (turn c a s).2 = started s.2 /\
  shutdown_event (turn c a s).2 = shutdown_event s.2.
Proof.
  destruct s as [p m], a as [|i]; simpl.
  - unfold parent_step. destruct (todo p).
    + by destruct (remaining p), (result_queue m).
    + by destruct (full c (task_queue m)).
  - unfold _worker_process. destruct (workers m !! i) as [pr|]; [|done].
    destruct (proc_state pr); try done.
    + destruct (init_fn c) as [f|]; [|done].
      by destruct (f (proc_gpu pr) (init_args c) (init_kwargs c)).
    + by destruct (task_queue m) as [|[]].
Qed.

Lemma run_started c turns s : started (run c turns s).2 = started s.2.
Proof.
  revert s. induction turns as [|a turns IH]; intros s; [done|].
  rewrite run_cons, IH. apply turn_flags.
Qed.

Lemma submissions_length func tasks task_ids :
  length tasks <= length task_ids ->
  length (submissions func tasks task_ids) = length tasks.
Proof. intros H. unfold submissions. by rewrite length_map, zip_length_full. Qed.

(** Safety: whatever the turns, a batch that returns holds one Outcome per
    task, each computed by some device in range, and leaves the pool ready
    for the next batch. *)
Lemma execute_multiprocessing_returned turns func tasks task_ids pool pool' rs :
  multiprocessing_ready pool ->
  length tasks <= length task_ids ->
  _execute_multiprocessing turns func tasks task_ids pool = (pool', Returned rs) ->
  exists devices, length devices = length tasks /\
    Forall (fun g => g < n_gpus (cfg pool)) devices /\
    rs ≡ₚ outcomes_on (cfg pool) func devices (zip task_ids tasks) /\
    cfg pool' = cfg pool /\ multiprocessing_ready pool'.
Proof.
  intros Hready Hlen. unfold _execute_multiprocessing. cbv zeta.
  pose proof Hready as (Happ & Hn & Hinit & _).
  destruct (batch_inv_start pool (submissions func tasks task_ids)
              (length tasks) Hready) as (pool1 & -> & Hcfg & Hst & _ & Hinv).
  rewrite Hcfg.
  pose proof (run_inv _ Hinit _ _ turns _ Hinv) as Hfinal.
  pose proof (run_started (cfg pool) turns
                ({| todo := submissions func tasks task_ids;
                    remaining := length tasks; results := [] |}, mpr pool1)) as Hs.
  destruct (run (cfg pool) turns _) as [parent' m] eqn:Hrun.
  destruct (parent_done parent') eqn:Hdone; [|done]. intros [= <- <-].
  rewrite <- (submissions_length func tasks task_ids Hlen) in Hfinal.
  destruct (batch_inv_done _ _ _ Hfinal Hdone)
    as (Hrq & Htq & Hfl & devices & Hdl & Hdev & Hres).
  rewrite outcomes_of_submissions in Hres.
  rewrite submissions_length in Hdl by done.
  exists devices. split; [done|]. split; [done|]. split; [done|].
  split; [done|]. unfold multiprocessing_ready. simpl in *.
  split; [by rewrite Hcfg|]. split; [by rewrite Hcfg|].
  split; [by rewrite Hcfg|]. split; [apply Hfinal|].
  split; [done|]. split; [done|]. rewrite Hs, Hst, Hcfg.
  split; [apply Hfinal|done].
Qed.


(** ** [execute], both engines *)

Lemma sorted_returned rs outs :
  sorted_by_task_id rs = Returned outs ->
  mutually_comparable rs = true /\ outs ≡ₚ rs /\ ascending outs /\
  (forall t, with_id t outs = with_id t rs).
Proof.
  intros H. pose proof (sorted_by_task_id_spec rs) as Hspec.
  destruct (mutually_comparable rs); [|congruence].
  destruct Hspec as (l' & Hl' & ?). rewrite H in Hl'. by injection Hl' as <-.
Qed.


Lemma default_task_ids_length tasks : length (default_task_ids tasks) = length tasks.
Proof. unfold default_task_ids. by rewrite length_map, length_seq. Qed.

Lemma default_task_ids_comparable tasks :
  ids_comparable (default_task_ids tasks) = true.
Proof.
  apply ids_comparable_pairwise. unfold default_task_ids.
  intros x y (i & -> & _)%list_elem_of_fmap (j & -> & _)%list_elem_of_fmap. done.
Qed.

Lemma outcomes_comparable c func devices task_ids (tasks : list PyVal) rs :
  length devices = length tasks -> length tasks <= length task_ids ->
  rs ≡ₚ outcomes_on c func devices (zip task_ids tasks) ->
  mutually_comparable rs = ids_comparable (take (length tasks) task_ids).
Proof.
  intros Hd Hlen HP. unfold mutually_comparable.
  assert (map task_id rs ≡ₚ take (length tasks) task_ids) as Hids.
  { rewrite HP, outcomes_on_ids, zip_fst_full; [done|done|].
    by rewrite zip_length_full. }
  destruct (ids_comparable (take (length tasks) task_ids)) eqn:E.
  - eapply ids_comparable_perm; [symmetry; exact Hids|done].
  - destruct (ids_comparable (map task_id rs)) eqn:E'; [|done].
    rewrite <- E. symmetry. eapply ids_comparable_perm; [exact Hids|done].
Qed.

(** Safety of the engine of the pool's approach. *)
Lemma engine_returned s func tasks task_ids pool pool' rs :
  pool_ready pool -> length tasks <= length task_ids ->
  run_engine s func tasks task_ids pool = (pool', Returned rs) ->
  exists devices, length devices = length tasks /\
    Forall (fun g => g < n_gpus (cfg pool)) devices /\
    rs ≡ₚ outcomes_on (cfg pool) func devices (zip task_ids tasks) /\
    (approach (cfg pool) = threading ->
       devices = round_robin (n_gpus (cfg pool)) 0 (length tasks)) /\
    cfg pool' = cfg pool /\ pool_ready pool'.
Proof.
  intros Hready Hlen. unfold pool_ready, run_engine in *.
  destruct (approach (cfg pool)) eqn:Happ.
  - destruct (execute_threading_ready (picks s) func tasks task_ids pool Hready)
      as (pool1 & -> & Hcfg & _ & _ & Hready1).
    intros [= <- <-]. rewrite zip_length_full by done.
    exists (round_robin (n_gpus (cfg pool)) 0 (length tasks)).
    split; [apply round_robin_length|].
    split; [apply round_robin_bound, Hready|].
    split; [apply as_completed_perm, Hready|].
    split; [done|]. split; [done|]. by rewrite Hcfg, Happ.
  - intros Hex.
    destruct (execute_multiprocessing_returned _ _ _ _ _ _ _ Hready Hlen Hex)
      as (devices & Hdl & Hdev & Hres & Hcfg & Hready').
    exists devices. split; [done|]. split; [done|]. split; [done|].
    split; [done|]. split; [done|]. by rewrite Hcfg, Happ.
Qed.



(** The engines never raise on a ready pool. *)
Lemma engine_never_raises s func tasks task_ids pool pool' e :
  pool_ready pool ->
  run_engine s func tasks task_ids pool <> (pool', Raised e).
Proof.
  intros Hready Hex. unfold pool_ready, run_engine in *.
  destruct (approach (cfg pool)).
  - destruct (execute_threading_ready (picks s) func tasks task_ids pool Hready)
      as (? & Hex' & _). congruence.
  - unfold _execute_multiprocessing in Hex.
    destruct (run _ _ _) as [parent' m]. injection Hex as _ Hr.
    by destruct (parent_done parent').
Qed.

Lemma engine_blocked s func tasks task_ids pool pool' :
  pool_ready pool ->
  run_engine s func tasks task_ids pool = (pool', Blocked) ->
  approach (cfg pool) = multiprocessing.
Proof.
  intros Hready Hex. unfold pool_ready, run_engine in *.
  destruct (approach (cfg pool)); [|done].
  destruct (execute_threading_ready (picks s) func tasks task_ids pool Hready)
    as (? & Hex' & _). congruence.
Qed.

(** Safety of [execute] on a ready pool: what it returns is one Outcome per
    task, each the Outcome of that task on a device in range, in ascending
    order of task id; the threading engine uses the round-robin devices;
    and the pool is ready for the next batch. *)
Lemma execute_returned s func tasks task_ids pool pool' outs :
  pool_ready pool ->
  length tasks <= length (default (default_task_ids tasks) task_ids) ->
  execute s func tasks task_ids pool = (pool', Returned outs) ->
  exists devices, length devices = length tasks /\
    Forall (fun g => g < n_gpus (cfg pool)) devices /\
    outs ≡ₚ outcomes_on (cfg pool) func devices
              (zip (default (default_task_ids tasks) task_ids) tasks) /\
    ascending outs /\
    (approach (cfg pool) = threading ->
       devices = round_robin (n_gpus (cfg pool)) 0 (length tasks)) /\
    cfg pool' = cfg pool /\ pool_ready pool'.
Proof.
  intros Hready Hlen. unfold execute.
  destruct tasks as [|task tasks'] eqn:Ht.
  { intros [= <- <-]. exists []. repeat split; try done; constructor. }
  rewrite <- Ht in *. clear Ht.
  destruct (run_engine _ _ _ _ _) as [pool1 r] eqn:Heng.
  destruct r as [rs| |]; simpl; intros [= <- Hsort].
  destruct (engine_returned _ _ _ _ _ _ _ Hready Hlen Heng)
    as (devices & Hdl & Hdev & Hres & Hrr & Hcfg & Hready').
  apply sorted_returned in Hsort as (_ & HP & Hasc & _).
  exists devices. split; [done|]. split; [done|].
  split; [by rewrite HP|]. done.
Qed.



(** * The claims *)

(** ** C1: an initializer that raises, under threading *)

(** C1, as stated, fails: with an initializer that raises for device 1,
    [execute] under threading raises that error; no Outcome is produced. *)
Lemma threading_initializer_error_escapes :
  (execute in_order square [PInt 1; PInt 2; PInt 3] None
     (new_pool 2 threading (Some boom))).2 = Raised (Thrown "boom").
Proof. vm_compute. reflexivity. Qed.

(** C1, amended: under threading, when the initializer raises for a device
    while the models are loaded on a non-empty batch, the error propagates
    out of [execute] and no Outcome is produced; the pool stays
    uninitialized, so the next [execute] loads the models again. *)
Theorem threading_initializer_failure_propagates
    s func tasks task_ids pool d e :
  approach (cfg pool) = threading ->
  initialized (thr pool) = false ->
  tasks <> [] ->
  d < n_gpus (cfg pool) ->
  (forall g, g < d -> init_error (cfg pool) g = None) ->
  init_error (cfg pool) d = Some e ->
  exists pool',
    execute s func tasks task_ids pool = (pool', Raised (Thrown e)) /\
    initialized (thr pool') = false /\ cfg pool' = cfg pool.
Proof.
  intros Happ Hinit Htasks Hd Hbefore He. unfold execute.
  destruct tasks as [|task tasks']; [done|]. unfold run_engine. rewrite Happ.
  unfold _execute_threading. rewrite Hinit. unfold _initialize_models_threading.
  assert (seq 0 (n_gpus (cfg pool))
          = seq 0 d ++ d :: seq (S d) (n_gpus (cfg pool) - S d)) as ->.
  { replace (n_gpus (cfg pool)) with (d + S (n_gpus (cfg pool) - S d)) at 1 by lia.
    by rewrite seq_app. }
  destruct (load_models_raises (cfg pool) (seq 0 d) d
              (seq (S d) (n_gpus (cfg pool) - S d)) (thr pool) e)
    as (t' & -> & Hi); [|done|].
  { intros g Hg. apply Hbefore. apply elem_of_seq in Hg. lia. }
  eexists. split; [done|]. simpl. by rewrite Hi.
Qed.

Lemma threading_initializer_failure_propagates_witness :
  exists pool',
    execute in_order square [PInt 1; PInt 2; PInt 3] None
      (new_pool 2 threading (Some boom)) = (pool', Raised (Thrown "boom")) /\
    initialized (thr pool') = false /\
    cfg pool' = cfg (new_pool 2 threading (Some boom)).
Proof.
  apply (threading_initializer_failure_propagates in_order square
           [PInt 1; PInt 2; PInt 3] None (new_pool 2 threading (Some boom)) 1 "boom").
  - reflexivity.
  - reflexivity.
  - discriminate.
  - apply Nat.lt_succ_diag_r.
  - intros g Hg. apply Nat.lt_1_r in Hg. rewrite Hg. reflexivity.
  - reflexivity.
Defined.

(** ** C2: the assignment of tasks to devices *)





(** Every pool the constructor builds, on a machine with a device and with
    an initializer that does not raise, is ready. *)
Lemma constructed_pool_ready device_count approach init_fn init_args init_kwargs
    verbose pool :
  GPUPool_init device_count approach init_fn init_args init_kwargs verbose
    = Returned pool ->
  0 < device_count -> initializer_ok (cfg pool) -> pool_ready pool.
Proof.
  unfold GPUPool_init, pool_ready.
  destruct (String.eqb approach "threading");
    [|destruct (String.eqb approach "multiprocessing")];
    intros [= <-] Hn Hok; simpl in *; [|by repeat split].
  split; [done|]. split; done.
Qed.

Lemma threading_ready_new n :
  0 < n -> threading_ready (new_pool n threading None).
Proof. intros Hn. split; [done|]. split; [done|]. intros g Hg. reflexivity. Defined.

Lemma multiprocessing_ready_new n :
  0 < n -> multiprocessing_ready (new_pool n multiprocessing None).
Proof.
  intros Hn. split; [done|]. split; [done|].
  split; [intros g Hg; reflexivity|]. repeat split.
Defined.



(** ** C3: one Outcome per task *)




(** ** C4: payload normalisation *)

(** C4, as stated, fails: the second rule of the specification takes any
    2-element sequence, the code only a tuple. The list [[1, {}]] is kept
    whole as the positional arguments, where the rule would split it. *)
Lemma normalize_list_pair_not_split :
  normalize_threading (PList [PInt 1; PDict []]) = (PList [PInt 1; PDict []], []) /\
  normalize_multiprocessing (PList [PInt 1; PDict []]) = (PList [PInt 1; PDict []], []) /\
  normalize_spec (PList [PInt 1; PDict []]) = (PInt 1, []) /\
  normalize_threading (PList [PInt 1; PDict []])
    <> normalize_spec (PList [PInt 1; PDict []]).
Proof. repeat split; done. Qed.

(** C4, amended: both engines normalise every payload by the four rules in
    priority order, the second rule applying to 2-element tuples only: a
    mapping gives [((), payload)]; a 2-element tuple whose second element is
    a mapping gives [(t[0], t[1])]; any other tuple and any list gives
    [(payload, {})]; any other value gives [((payload,), {})]. *)
Theorem normalize_follows_rules (task : PyVal) :
  normalize_threading task = normalize_rules task /\
  normalize_multiprocessing task = normalize_rules task.
Proof.
  split; destruct task as [| | | | |items|items|d]; try done;
    destruct items as [|a [|b [|? ?]]]; try done; by destruct b.
Qed.

(** ** C5: the fields of an Outcome *)

(** C5, as stated, fails: the Outcome of a task whose work function raised
    has no elapsed duration. *)
Lemma failed_outcome_has_no_duration :
  worker_thread (set_model 0 PNone _init_threading) sqrt_or_fail
    (TidInt 1, 0, PTuple [], [("x", PInt (-1))])
    = Returned (Failure (TidInt 1) 0 "math domain error") /\
  run_task 0 PNone
    {| td_id := TidInt 1; td_func := sqrt_or_fail; td_args := PTuple [];
       td_kwargs := [("x", PInt (-1))] |}
    = Failure (TidInt 1) 0 "math domain error" /\
  processing_time (Failure (TidInt 1) 0 "math domain error") = None /\
  "processing_time" ∉ keys (Failure (TidInt 1) 0 "math domain error").
Proof.
  split; [done|]. split; [done|]. split; [done|].
  simpl. rewrite !elem_of_cons, elem_of_nil. intros [?|[?|[?|[?|[]]]]]; done.
Qed.

(** C5, amended: under either engine an Outcome carries the success flag,
    the task id and the device id of its task; when the work function
    returned it carries the elapsed duration and the value, when it raised
    it carries the error description and no duration. The ["INIT_FAILED"]
    Outcome of a worker process has the shape of a failure. *)
Theorem outcome_fields :
  (forall t func tid g args kwargs m,
     g ∈ model_locks t -> models t !! g = Some m ->
     worker_thread t func (tid, g, args, kwargs) =
       Returned
         match func args (enhance kwargs g m) with
         | Return r seconds => Success tid g seconds r
         | Raise e => Failure tid g e
         end) /\
  (forall g m td,
     run_task g m td =
       match td_func td (td_args td) (enhance (td_kwargs td) g m) with
       | Return r seconds => Success (td_id td) g seconds r
       | Raise e => Failure (td_id td) g e
       end) /\
  (forall t g seconds r,
     keys (Success t g seconds r)
       = ["success"; "task_id"; "gpu_id"; "processing_time"; "result"] /\
     success (Success t g seconds r) = true /\
     processing_time (Success t g seconds r) = Some seconds /\
     result (Success t g seconds r) = Some r) /\
  (forall t g e,
     keys (Failure t g e) = ["success"; "task_id"; "gpu_id"; "error"] /\
     success (Failure t g e) = false /\
     processing_time (Failure t g e) = None /\
     error (Failure t g e) = Some e) /\
  (forall g e, success (init_failed g e) = false /\
     task_id (init_failed g e) = TidStr "INIT_FAILED" /\
     gpu_id (init_failed g e) = g).
Proof.
  split; [|done]. intros t func tid g args kwargs m Hlock Hm.
  unfold worker_thread. rewrite decide_True by done. rewrite Hm.
  by destruct (func args _).
Qed.

Lemma outcome_fields_witness :
  worker_thread (set_model 0 PNone _init_threading) square
    (TidInt 7, 0, PTuple [PInt 3], [])
  = Returned (Success (TidInt 7) 0 (Qmake 1 1) (PInt 9)).
Proof.
  apply (proj1 outcome_fields (set_model 0 PNone _init_threading) square
           (TidInt 7) 0 (PTuple [PInt 3]) [] PNone).
  - apply elem_of_union_l, elem_of_singleton. reflexivity.
  - reflexivity.
Defined.

(** ** C6: the order of the returned list *)

(** C6, as stated, fails: with an integer id and a string id in one batch
    no list is returned, ordered or not; [sorted] raises [TypeError]. *)
Lemma incomparable_ids_raise :
  (execute in_order square [PInt 1; PInt 2] (Some [TidInt 0; TidStr "a"])
     (new_pool 1 threading None)).2 = Raised TypeError.
Proof. vm_compute. reflexivity. Qed.

(** C6, amended: a list returned by [execute] is in ascending order of task
    id. Sorting returns exactly when the task ids of the collected Outcomes
    are mutually comparable, and then gives the stable arrangement (a
    permutation that keeps the collection order of equal ids); otherwise
    [execute] raises [TypeError]: on a ready pool whose batch has two ids
    that cannot be compared, no run of [execute] returns a list. *)
Theorem execute_orders_by_task_id :
  (forall s func tasks task_ids pool pool' outs,
     execute s func tasks task_ids pool = (pool', Returned outs) ->
     ascending outs) /\
  (forall rs,
     if mutually_comparable rs
     then exists outs, sorted_by_task_id rs = Returned outs /\ outs ≡ₚ rs /\
            ascending outs /\ (forall t, with_id t outs = with_id t rs)
     else sorted_by_task_id rs = Raised TypeError) /\
  (forall s func tasks task_ids pool pool' r,
     pool_ready pool ->
     length tasks <= length (default (default_task_ids tasks) task_ids) ->
     ids_comparable
       (take (length tasks) (default (default_task_ids tasks) task_ids)) = false ->
     execute s func tasks task_ids pool = (pool', r) ->
     r = Raised TypeError \/ (r = Blocked /\ approach (cfg pool) = multiprocessing)).
Proof.
  split; [|split; [apply sorted_by_task_id_spec|]].
  - intros s func tasks task_ids pool pool' outs. unfold execute.
    destruct tasks as [|task tasks']; [intros [= <- <-]; constructor|].
    destruct (run_engine _ _ _ _ _) as [pool1 r].
    destruct r as [rs| |]; simpl; intros [= <- Hsort].
    by apply sorted_returned in Hsort as (_ & _ & Hasc & _).
  - intros s func tasks task_ids pool pool' r Hready Hlen Hcmp. unfold execute.
    destruct tasks as [|task tasks'] eqn:Ht; [done|]. rewrite <- Ht in *. clear Ht.
    destruct (run_engine _ _ _ _ _) as [pool1 r1] eqn:Heng.
    intros [= <- <-]. destruct r1 as [rs|e|]; simpl.
    + left.
      destruct (engine_returned _ _ _ _ _ _ _ Hready Hlen Heng)
        as (devices & Hdl & _ & Hres & _).
      pose proof (sorted_by_task_id_spec rs) as Hspec.
      by rewrite (outcomes_comparable _ _ _ _ _ _ Hdl Hlen Hres), Hcmp in Hspec.
    + exfalso. by eapply engine_never_raises.
    + right. split; [done|]. by eapply engine_blocked.
Qed.

Lemma execute_orders_by_task_id_witness :
  ascending [Success (TidInt 0) 0 (Qmake 1 1) (PInt 1);
             Success (TidInt 1) 0 (Qmake 1 1) (PInt 4);
             Success (TidInt 2) 0 (Qmake 1 1) (PInt 9)].
Proof.
  apply (proj1 execute_orders_by_task_id in_order square
           [PInt 1; PInt 2; PInt 3] None (new_pool 1 threading None)
           (execute in_order square [PInt 1; PInt 2; PInt 3] None
              (new_pool 1 threading None)).1).
  vm_compute. reflexivity.
Defined.

(** ** C7: [shutdown] twice, or without [start] *)

Lemma shutdown_not_started pauses pool :
  started (mpr pool) = false -> shutdown pauses pool = (pool, Returned tt).
Proof. intros H. unfold shutdown. rewrite H. by destruct (approach (cfg pool)). Qed.

Lemma shutdown_stops pauses pool :
  (shutdown pauses pool).2 = Returned tt /\
  (approach (cfg (shutdown pauses pool).1) = threading \/
   started (mpr (shutdown pauses pool).1) = false).
Proof.
  unfold shutdown. destruct (approach (cfg pool)) eqn:Happ; [by split; [|left]|].
  destruct (started (mpr pool)) eqn:Hst; [|by split; [|right]].
  destruct (send_signals _ _ _ _) as [pauses' m2]. by split; [|right].
Qed.

(** C7: [shutdown] raises nothing; on a pool that was not started, under
    either approach, and in particular on a pool fresh from the
    constructor, it changes nothing; and a second [shutdown] after a first
    changes nothing, whatever the workers do in between. *)
Theorem shutdown_idempotent :
  (forall pauses pool, (shutdown pauses pool).2 = Returned tt) /\
  (forall pauses pool,
     started (mpr pool) = false -> shutdown pauses pool = (pool, Returned tt)) /\
  (forall pauses pool,
     approach (cfg pool) = threading -> shutdown pauses pool = (pool, Returned tt)) /\
  (forall pauses device_count approach init_fn init_args init_kwargs verbose pool,
     GPUPool_init device_count approach init_fn init_args init_kwargs verbose
       = Returned pool ->
     shutdown pauses pool = (pool, Returned tt)) /\
  (forall pauses pauses' pool,
     shutdown pauses' (shutdown pauses pool).1
     = ((shutdown pauses pool).1, Returned tt)).
Proof.
  split; [intros; apply shutdown_stops|].
  split; [intros; by apply shutdown_not_started|].
  split; [intros pauses pool H; unfold shutdown; by rewrite H|].
  split.
  - intros pauses dc a f ia ik v pool. unfold GPUPool_init.
    destruct (String.eqb a "threading");
      [|destruct (String.eqb a "multiprocessing")]; intros [= <-]; done.
  - intros pauses pauses' pool.
    destruct (shutdown_stops pauses pool) as [_ [H|H]].
    + unfold shutdown at 1. by rewrite H.
    + by apply shutdown_not_started.
Qed.

Lemma shutdown_idempotent_witness :
  shutdown [[1]]
    (shutdown [[0]] (start (new_pool 2 multiprocessing None)).1).1
  = ((shutdown [[0]] (start (new_pool 2 multiprocessing None)).1).1,
     Returned tt).
Proof.
  apply (proj2 (proj2 (proj2 (proj2 shutdown_idempotent))) [[0]] [[1]]
           (start (new_pool 2 multiprocessing None)).1).
Defined.

(** ** C8: a work function that raises for one task *)




(** ** C9: an initializer that raises, under multiprocessing *)












(** ** C10: [gpu_map] *)

(** C10: whatever its arguments, [gpu_map] ends with the [TypeError] of the
    call that builds the pool: seven positional arguments for the five
    parameters of [GPUPool.__init__]. The body of [__init__] does not run,
    no pool exists, and [execute] is never reached, so no task runs. *)
Theorem gpu_map_raises_TypeError :
  forall device_count s pauses func tasks approach model_size_gb n_gpus
         init_fn init_args init_kwargs verbose,
    GPUPool_call device_count
      [arg_of_n_gpus n_gpus; ArgVal (PStr approach); arg_of_init_fn init_fn;
       ArgVal init_args; ArgVal (PDict init_kwargs);
       ArgVal (PFloat model_size_gb); ArgVal (PBool verbose)]
    = Some (Raised TypeError) /\
    gpu_map device_count s pauses func tasks approach model_size_gb n_gpus
      init_fn init_args init_kwargs verbose
    = Some (Raised TypeError).
Proof. intros. split; reflexivity. Qed.

(** * Scenarios of the specification *)

(** One device, no initializer, the squares of 1, 2, 3. *)
Example scenario_squares :
  (execute in_order square [PInt 1; PInt 2; PInt 3] None
     (new_pool 1 threading None)).2
  = Returned [Success (TidInt 0) 0 (Qmake 1 1) (PInt 1);
              Success (TidInt 1) 0 (Qmake 1 1) (PInt 4);
              Success (TidInt 2) 0 (Qmake 1 1) (PInt 9)].
Proof. vm_compute. reflexivity. Qed.

(** Two devices, isolated; the second of three tasks raises. *)
Example scenario_one_task_fails :
  (execute taking_turns sqrt_or_fail three_roots None
     (new_pool 2 multiprocessing None)).2
  = Returned [Success (TidInt 0) 0 (Qmake 1 1) (PInt 1);
              Failure (TidInt 1) 1 "math domain error";
              Success (TidInt 2) 0 (Qmake 1 1) (PInt 2)].
Proof. vm_compute. reflexivity. Qed.

(** More tasks than the queue holds: after three turns of the parent only
    two tasks are on the queue and the third is still to put; the batch
    returns all the same once the worker has made room. *)
Example scenario_back_pressure :
  let pool := (start (new_pool 1 multiprocessing None)).1 in
  let waiting :=
    run (cfg pool) [TheParent; TheParent; TheParent]
      ({| todo := submissions sqrt_or_fail three_roots
                    (default_task_ids three_roots);
          remaining := 3; results := [] |}, mpr pool) in
  length (task_queue waiting.2) = 2 /\ length (todo waiting.1) = 1 /\
  (execute back_pressure sqrt_or_fail three_roots None
     (new_pool 1 multiprocessing None)).2
  = Returned [Success (TidInt 0) 0 (Qmake 1 1) (PInt 1);
              Failure (TidInt 1) 0 "math domain error";
              Success (TidInt 2) 0 (Qmake 1 1) (PInt 2)].
Proof. repeat split; vm_compute; reflexivity. Qed.

(** * Further properties of the code *)

(** ** The keyword arguments a worker passes on *)

Lemma dict_get_set_eq k v d : dict_get k (dict_set k v d) = Some v.
Proof.
  induction d as [|[k' v'] d IH]; simpl.
  - by rewrite String.eqb_refl.
  - destruct (String.eqb k k') eqn:Hk; simpl.
    + by rewrite String.eqb_refl.
    + by rewrite Hk.
Qed.

Lemma dict_get_set_ne k k' v d :
  String.eqb k' k = false -> dict_get k' (dict_set k v d) = dict_get k' d.
Proof.
  intros Hne. induction d as [|[k2 v2] d IH]; simpl.
  - by rewrite Hne.
  - destruct (String.eqb k k2) eqn:Hk; simpl.
    + apply String.eqb_eq in Hk. subst k2. by rewrite Hne.
    + by rewrite IH.
Qed.

(** X1: what the work function finds in its keyword arguments, under
    either engine: ['gpu_id'] is the device of the worker, also when the
    task brought a ['gpu_id'] of its own; ['models'] is the models of the
    device when there are any, and otherwise whatever the task brought;
    every other keyword is the task's own. *)
Theorem enhance_lookup (kwargs : Dict) (g : nat) (m : PyVal) (k : string) :
  dict_get k (enhance kwargs g m) =
    if String.eqb k "gpu_id" then Some (PInt (Z.of_nat g))
    else if String.eqb k "models" && is_not_None m then Some m
    else dict_get k kwargs.
Proof.
  unfold enhance.
  destruct (String.eqb k "gpu_id") eqn:Hg.
  - apply String.eqb_eq in Hg. subst k.
    destruct m; simpl is_not_None; cbv iota;
      rewrite ?(dict_get_set_ne "models" "gpu_id") by reflexivity;
      apply dict_get_set_eq.
  - destruct (String.eqb k "models") eqn:Hm.
    + apply String.eqb_eq in Hm. subst k.
      destruct m; simpl; try apply dict_get_set_eq.
      by rewrite dict_get_set_ne.
    + destruct m; simpl; rewrite ?(dict_get_set_ne "models") by done;
        by rewrite dict_get_set_ne.
Qed.

(** ** The order of the returned list *)

Lemma tid_lt_irrefl a : tid_lt a a <> Returned true.
Proof.
  destruct a as [z|s]; simpl.
  - rewrite Z.ltb_irrefl. discriminate.
  - rewrite string_ltb_irrefl. discriminate.
Qed.

Lemma tid_lt_true_trans a b c :
  tid_lt a b = Returned true -> tid_lt b c = Returned true ->
  tid_lt a c = Returned true.
Proof.
  destruct a as [x|s], b as [y|t], c as [z|u]; simpl; try discriminate.
  - intros [= Hxy] [= Hyz]. f_equal. apply Z.ltb_lt. apply Z.ltb_lt in Hxy, Hyz. lia.
  - intros [= Hst] [= Htu]. f_equal. unfold String.ltb in *.
    destruct (String.compare s t) eqn:H1; try discriminate.
    destruct (String.compare t u) eqn:H2; try discriminate.
    by rewrite (string_compare_lt_trans s t u).
Qed.

(** A list in ascending order that rearranges a strictly ascending one is
    that list. *)
Lemma ascending_perm_strict (l l' : list Outcome) :
  StronglySorted (fun x y => tid_lt (task_id x) (task_id y) = Returned true) l ->
  l' ≡ₚ l -> ascending l' -> l' = l.
Proof.
  intros Hl. revert l'. induction Hl as [|x r Hr IH Hx]; intros l' Hp Hasc.
  - by apply Permutation_nil_r in Hp.
  - destruct l' as [|y r'].
    { by apply Permutation_nil_cons in Hp. }
    assert (Hy : y ∈ x :: r) by (rewrite <- Hp; apply list_elem_of_here).
    apply StronglySorted_inv in Hasc as [Hasc' Hyr'].
    apply elem_of_cons in Hy as [->|Hy].
    + f_equal. apply IH; [|done]. by apply Permutation_cons_inv in Hp.
    + exfalso.
      assert (Hxy : tid_lt (task_id x) (task_id y) = Returned true).
      { rewrite Forall_forall in Hx. by apply Hx. }
      assert (Hx' : x ∈ y :: r') by (rewrite Hp; apply list_elem_of_here).
      apply elem_of_cons in Hx' as [->|Hx'].
      * by apply tid_lt_irrefl in Hxy.
      * rewrite Forall_forall in Hyr'.
        assert (Hle : tid_le (task_id y) (task_id x)).
        { by apply Hyr'. }
        unfold tid_le in Hle. congruence.
Qed.

Lemma strictly_ascending_outcomes c func devices (batch : list (TaskId * PyVal)) :
  length devices = length batch ->
  strictly_ascending (map fst batch) ->
  StronglySorted (fun x y => tid_lt (task_id x) (task_id y) = Returned true)
    (outcomes_on c func devices batch).
Proof.
  revert devices. induction batch as [|task batch IH]; intros devices Hlen Hs.
  - destruct devices; constructor.
  - destruct devices as [|g devices]; [done|]. simpl in Hlen.
    apply StronglySorted_inv in Hs as [Hs Hhd].
    unfold outcomes_on. simpl. constructor.
    + apply IH; [lia|done].
    + rewrite Forall_forall. intros o Ho.
      assert (Hid : task_id o ∈ map fst batch).
      { fold (outcomes_on c func devices batch) in Ho.
        rewrite <- (outcomes_on_ids c func devices batch) by lia.
        apply list_elem_of_fmap. by exists o. }
      rewrite task_outcome_id.
      rewrite Forall_forall in Hhd. by apply Hhd.
Qed.

Lemma strictly_ascending_seq i count :
  strictly_ascending (map (fun k => TidInt (Z.of_nat k)) (seq i count)).
Proof.
  revert i. induction count as [|count IH]; intros i; simpl; constructor.
  - apply IH.
  - rewrite Forall_forall. intros t Ht.
    apply list_elem_of_fmap in Ht as (k & -> & Hk).
    apply elem_of_seq in Hk. simpl. f_equal. apply Z.ltb_lt. lia.
Qed.

Lemma default_task_ids_strictly_ascending tasks :
  strictly_ascending
    (take (length tasks) (default (default_task_ids tasks) None)).
Proof.
  simpl. rewrite take_ge by (by rewrite default_task_ids_length).
  apply strictly_ascending_seq.
Qed.

(** X2: with task ids in strictly increasing order, as the default ids
    [0, 1, ...] are, the list that [execute] returns on a ready pool is in
    submission order whatever the order in which the tasks finished: it is,
    element by element, the Outcome of each task on the device that ran it
    (under threading, device [i mod n_gpus] for the task of index [i]). *)
Theorem results_in_submission_order s func tasks task_ids pool pool' outs :
  pool_ready pool ->
  length tasks <= length (default (default_task_ids tasks) task_ids) ->
  strictly_ascending
    (take (length tasks) (default (default_task_ids tasks) task_ids)) ->
  execute s func tasks task_ids pool = (pool', Returned outs) ->
  exists devices, length devices = length tasks /\
    Forall (fun g => g < n_gpus (cfg pool)) devices /\
    outs = outcomes_on (cfg pool) func devices
             (zip (default (default_task_ids tasks) task_ids) tasks) /\
    (approach (cfg pool) = threading ->
       devices = round_robin (n_gpus (cfg pool)) 0 (length tasks)).
Proof.
  intros Hready Hlen Hids Hex.
  destruct (execute_returned _ _ _ _ _ _ _ Hready Hlen Hex)
    as (devices & Hdl & Hdb & Hperm & Hasc & Hrr & _ & _).
  exists devices. split; [done|]. split; [done|]. split; [|done].
  apply ascending_perm_strict; [|done|done].
  apply strictly_ascending_outcomes.
  - by rewrite zip_length_full.
  - by rewrite zip_fst_full.
Qed.

Lemma results_in_submission_order_witness :
  exists devices,
    (execute crossed square [PInt 1; PInt 2] None
       (new_pool 2 multiprocessing None)).2 =
    Returned (outcomes_on (cfg (new_pool 2 multiprocessing None)) square devices
                (zip (default_task_ids [PInt 1; PInt 2]) [PInt 1; PInt 2])).
Proof.
  destruct (results_in_submission_order crossed square [PInt 1; PInt 2] None
              (new_pool 2 multiprocessing None)
              (execute crossed square [PInt 1; PInt 2] None
                 (new_pool 2 multiprocessing None)).1
              [Success (TidInt 0) 1 (Qmake 1 1) (PInt 1);
               Success (TidInt 1) 0 (Qmake 1 1) (PInt 4)])
    as (devices & _ & _ & Hout & _).
  - apply multiprocessing_ready_new. lia.
  - simpl. lia.
  - apply default_task_ids_strictly_ascending.
  - reflexivity.
  - exists devices. exact (f_equal Returned Hout).
Defined.

(** ** The share of each device under threading *)

Lemma reports_perm g (l l' : list Outcome) :
  l ≡ₚ l' -> length (reports g l) = length (reports g l').
Proof.
  unfold reports. induction 1 as [|x l l' _ IH|x y l|l l' l'' _ IH1 _ IH2]; simpl.
  - done.
  - destruct (gpu_id x =? g); simpl; lia.
  - destruct (gpu_id x =? g), (gpu_id y =? g); simpl; lia.
  - lia.
Qed.

Lemma reports_outcomes_on c func g devices (batch : list (TaskId * PyVal)) :
  length devices = length batch ->
  length (reports g (outcomes_on c func devices batch))
  = length (List.filter (fun d => d =? g) devices).
Proof.
  revert batch. induction devices as [|d devices IH]; intros [|task batch] Hlen;
    try done.
  unfold outcomes_on, reports in *. simpl. rewrite task_outcome_gpu.
  simpl in Hlen. destruct (d =? g); simpl; rewrite IH; lia.
Qed.

Lemma succ_div_mod n N :
  0 < n ->
  (S N mod n = 0 /\ S N / n = S (N / n) /\ S (N mod n) = n) \/
  (S N mod n = S (N mod n) /\ S N / n = N / n /\ S (N mod n) < n).
Proof.
  intros Hn.
  pose proof (Nat.div_mod_eq N n) as HN.
  pose proof (Nat.mod_upper_bound N n ltac:(lia)) as Hr.
  destruct (decide (S (N mod n) = n)) as [Heq|Hne].
  - left. split; [|split; [|done]].
    + symmetry. apply (Nat.mod_unique (S N) n (S (N / n)) 0); [lia|rewrite ?Nat.mul_succ_r; lia].
    + symmetry. apply (Nat.div_unique (S N) n (S (N / n)) 0); [lia|rewrite ?Nat.mul_succ_r; lia].
  - right. split; [|split; [|lia]].
    + symmetry. apply (Nat.mod_unique (S N) n (N / n) (S (N mod n))); [lia|rewrite ?Nat.mul_succ_r; lia].
    + symmetry. apply (Nat.div_unique (S N) n (N / n) (S (N mod n))); [lia|rewrite ?Nat.mul_succ_r; lia].
Qed.

(** Round robin over [n] devices gives device [g] every [n]-th task: of
    [count] tasks, [count / n] and one more if [g < count mod n]. *)
Lemma round_robin_share n count g :
  0 < n -> g < n ->
  length (List.filter (fun d => d =? g) (round_robin n 0 count))
  = count / n + (if g <? count mod n then 1 else 0).
Proof.
  intros Hn Hg. induction count as [|count IH].
  - simpl. rewrite Nat.Div0.div_0_l, Nat.Div0.mod_0_l. simpl. done.
  - unfold round_robin in *. rewrite seq_S, map_app, List.filter_app, length_app, IH.
    simpl.
    destruct (succ_div_mod n count Hn) as [(Hm & Hd & Hr)|(Hm & Hd & Hr)];
      rewrite Hm, Hd.
    + destruct (Nat.eqb_spec (count mod n) g), (Nat.ltb_spec g (count mod n)),
        (Nat.ltb_spec g 0); simpl; lia.
    + destruct (Nat.eqb_spec (count mod n) g), (Nat.ltb_spec g (count mod n)),
        (Nat.ltb_spec g (S (count mod n))); simpl; lia.
Qed.

(** X3: under threading the tasks are spread evenly: of the Outcomes that
    [execute] returns for a batch of [N] tasks on [n] devices, those that
    report device [g] number [N / n], and one more for the first [N mod n]
    devices; so the shares of two devices differ by at most one. *)
Theorem threading_shares_are_balanced s func tasks task_ids pool pool' outs g :
  threading_ready pool ->
  length tasks <= length (default (default_task_ids tasks) task_ids) ->
  execute s func tasks task_ids pool = (pool', Returned outs) ->
  g < n_gpus (cfg pool) ->
  length (reports g outs)
  = length tasks / n_gpus (cfg pool)
    + (if g <? length tasks mod n_gpus (cfg pool) then 1 else 0).
Proof.
  intros Hready Hlen Hex Hg.
  assert (Hpool : pool_ready pool).
  { unfold pool_ready. by rewrite (proj1 Hready). }
  destruct (execute_returned _ _ _ _ _ _ _ Hpool Hlen Hex)
    as (devices & Hdl & _ & Hperm & _ & Hrr & _ & _).
  rewrite (reports_perm g _ _ Hperm).
  rewrite reports_outcomes_on by (by rewrite zip_length_full).
  rewrite (Hrr (proj1 Hready)).
  apply round_robin_share; [lia|done].
Qed.

Lemma threading_shares_are_balanced_witness :
  length (reports 0
            [Success (TidInt 0) 0 (Qmake 1 1) (PInt 1);
             Success (TidInt 1) 1 (Qmake 1 1) (PInt 4);
             Success (TidInt 2) 0 (Qmake 1 1) (PInt 9)]) = 2.
Proof.
  apply (threading_shares_are_balanced in_order square
           [PInt 1; PInt 2; PInt 3] None (new_pool 2 threading None)
           (execute in_order square [PInt 1; PInt 2; PInt 3] None
              (new_pool 2 threading None)).1).
  - apply threading_ready_new. lia.
  - simpl. lia.
  - reflexivity.
  - simpl. lia.
Defined.

(** ** Worker processes and [shutdown] *)

(** A turn of worker [i] changes nothing, or replaces the state of process
    [i], which had not exited, and the two queues. *)
Lemma worker_turn_shape c i m :
  _worker_process c i m = m \/
  exists p w tq rq, workers m !! i = Some p /\ proc_state p <> Exited /\
    _worker_process c i m = with_queues m tq rq (set_worker i p w (workers m)).
Proof.
  unfold _worker_process. destruct (workers m !! i) as [p|] eqn:Hi; [|by left].
  destruct (proc_state p) as [|mo n|mo n|mo n td|] eqn:Hst; [..|by left]; right;
    repeat case_match;
    (eexists p, _, _, _; split; [done|]; split; [by rewrite Hst|reflexivity]).
Qed.

Lemma worker_turn_frame c i m :
  started (_worker_process c i m) = started m /\
  shutdown_event (_worker_process c i m) = shutdown_event m /\
  map proc_gpu (workers (_worker_process c i m)) = map proc_gpu (workers m).
Proof.
  destruct (worker_turn_shape c i m) as [->|(p & w & tq & rq & Hi & _ & ->)];
    [done|]. simpl. split; [done|]. split; [done|].
  unfold set_worker. rewrite list_fmap_insert. simpl.
  apply list_insert_id. by rewrite list_lookup_fmap, Hi.
Qed.

(** A process that has exited stays so, whichever worker takes a turn. *)
Lemma worker_turn_keeps_exited c i m j p :
  workers m !! j = Some p -> proc_state p = Exited ->
  workers (_worker_process c i m) !! j = Some p.
Proof.
  intros Hj Hp.
  destruct (worker_turn_shape c i m) as [->|(p' & w & tq & rq & Hi & Hne & ->)];
    [done|]. simpl. unfold set_worker.
  destruct (decide (i = j)) as [->|Hij]; [congruence|].
  by rewrite list_lookup_insert_ne.
Qed.

Lemma run_children_frame c children m :
  started (run_children c children m) = started m /\
  shutdown_event (run_children c children m) = shutdown_event m /\
  map proc_gpu (workers (run_children c children m)) = map proc_gpu (workers m).
Proof.
  revert m. induction children as [|i children IH]; intros m; [done|].
  simpl. destruct (IH (_worker_process c i m)) as (-> & -> & ->).
  apply worker_turn_frame.
Qed.

Lemma run_children_keeps_exited c children m j p :
  workers m !! j = Some p -> proc_state p = Exited ->
  workers (run_children c children m) !! j = Some p.
Proof.
  revert m. induction children as [|i children IH]; intros m Hj Hp; [done|].
  simpl. apply IH; [|done]. by apply worker_turn_keeps_exited.
Qed.

Lemma send_signals_frame c count pauses m :
  started (send_signals c count pauses m).2 = started m /\
  shutdown_event (send_signals c count pauses m).2 = shutdown_event m /\
  map proc_gpu (workers (send_signals c count pauses m).2)
  = map proc_gpu (workers m).
Proof.
  revert pauses m. induction count as [|count IH]; intros pauses m; [done|].
  simpl. set (m1 := run_children c (default [] (head pauses)) m).
  destruct (run_children_frame c (default [] (head pauses)) m) as (Hs & He & Hg).
  fold m1 in Hs, He, Hg. rewrite <- Hs, <- He, <- Hg.
  match goal with |- context [send_signals c count (tail pauses) ?m2] =>
    destruct (IH (tail pauses) m2) as (-> & -> & ->) end.
  by destruct (full c (task_queue m1)).
Qed.

(** [join_workers] leaves the processes it has passed exited. *)
Lemma join_workers_exits c count i pauses m :
  (forall j p, j < i -> workers m !! j = Some p -> proc_state p = Exited) ->
  i + count = length (workers m) ->
  Forall (fun p => proc_state p = Exited)
    (workers (join_workers c count i pauses m)) /\
  started (join_workers c count i pauses m) = started m /\
  shutdown_event (join_workers c count i pauses m) = shutdown_event m /\
  map proc_gpu (workers (join_workers c count i pauses m))
  = map proc_gpu (workers m).
Proof.
  revert i pauses m. induction count as [|count IH]; intros i pauses m Hbelow Hlen.
  - simpl. split; [|done]. apply Forall_lookup. intros j p Hj.
    apply (Hbelow j); [|done]. apply lookup_lt_Some in Hj. lia.
  - simpl. set (m1 := run_children c (default [] (head pauses)) m).
    destruct (run_children_frame c (default [] (head pauses)) m) as (Hs & He & Hg).
    fold m1 in Hs, He, Hg.
    assert (Hlen1 : length (workers m1) = length (workers m)).
    { by rewrite <- (length_map proc_gpu), Hg, length_map. }
    assert (Hbelow1 : forall j p, j < i -> workers m1 !! j = Some p ->
                        proc_state p = Exited).
    { intros j p Hj Hp.
      destruct (lookup_lt_is_Some_2 (workers m) j) as [p0 Hp0]; [lia|].
      pose proof (Hbelow j p0 Hj Hp0) as Hex.
      pose proof (run_children_keeps_exited c (default [] (head pauses)) m j p0
                    Hp0 Hex) as Hkeep.
      fold m1 in Hkeep. congruence. }
    destruct (lookup_lt_is_Some_2 (workers m1) i) as [pi Hpi]; [lia|].
    rewrite Hpi.
    match goal with |- context [join_workers c count (S i) (tail pauses) ?m2] =>
      destruct (IH (S i) (tail pauses) m2) as (Hall & -> & -> & ->) end.
    + simpl. unfold set_worker. intros j p Hj.
      destruct (decide (j = i)) as [->|Hji].
      * rewrite list_lookup_insert_eq by lia. by intros [= <-].
      * rewrite list_lookup_insert_ne by done. apply Hbelow1. lia.
    + simpl. unfold set_worker. rewrite length_insert. lia.
    + split; [done|]. simpl. split; [done|]. split; [done|].
      rewrite <- Hg. unfold set_worker. rewrite list_fmap_insert. simpl.
      apply list_insert_id. by rewrite list_lookup_fmap, Hpi.
Qed.

(** What [shutdown] does to a started multiprocessing pool. *)
Lemma shutdown_started pauses pool :
  approach (cfg pool) = multiprocessing -> started (mpr pool) = true ->
  started (mpr (shutdown pauses pool).1) = false /\
  shutdown_event (mpr (shutdown pauses pool).1) = true /\
  Forall (fun p => proc_state p = Exited) (workers (mpr (shutdown pauses pool).1)) /\
  map proc_gpu (workers (mpr (shutdown pauses pool).1))
  = map proc_gpu (workers (mpr pool)) /\
  cfg (shutdown pauses pool).1 = cfg pool /\
  thr (shutdown pauses pool).1 = thr pool.
Proof.
  intros Ha Hs. unfold shutdown. rewrite Ha, Hs.
  match goal with |- context [send_signals ?c0 ?n0 pauses ?m1] =>
    pose proof (send_signals_frame c0 n0 pauses m1) as (_ & He & Hg);
    destruct (send_signals c0 n0 pauses m1) as [pauses' m2] end.
  simpl in He, Hg. simpl.
  destruct (join_workers_exits (cfg pool) (length (workers m2)) 0 pauses' m2)
    as (Hall & _ & He' & Hg'); [intros j p Hj; lia|done|].
  split; [done|]. split; [congruence|]. split; [done|]. split; [congruence|done].
Qed.

(** X4: [shutdown] leaves no worker process behind. On a started
    multiprocessing pool, whatever the workers were doing and whatever they
    do while the parent signals and joins, afterwards the pool is not
    started, the shutdown event is set, and every process of the list has
    exited, joined or terminated; the processes are still the same ones on
    the same devices, and the configuration is untouched. *)
Theorem shutdown_leaves_no_worker pauses pool :
  approach (cfg pool) = multiprocessing -> started (mpr pool) = true ->
  started (mpr (shutdown pauses pool).1) = false /\
  shutdown_event (mpr (shutdown pauses pool).1) = true /\
  Forall (fun p => proc_state p = Exited) (workers (mpr (shutdown pauses pool).1)) /\
  map proc_gpu (workers (mpr (shutdown pauses pool).1))
  = map proc_gpu (workers (mpr pool)) /\
  cfg (shutdown pauses pool).1 = cfg pool /\
  thr (shutdown pauses pool).1 = thr pool.
Proof. apply shutdown_started. Qed.

Lemma shutdown_leaves_no_worker_witness :
  Forall (fun p => proc_state p = Exited)
    (workers (mpr (shutdown [[0]; [1]]
                     (execute crossed square [PInt 1; PInt 2] None
                        (new_pool 2 multiprocessing None)).1).1)).
Proof.
  apply (shutdown_leaves_no_worker [[0]; [1]]
           (execute crossed square [PInt 1; PInt 2] None
              (new_pool 2 multiprocessing None)).1).
  - reflexivity.
  - reflexivity.
Defined.

(** ** What [execute] leaves of the pool *)

Lemma sorted_raises rs e :
  sorted_by_task_id rs = Raised e -> e = TypeError /\ mutually_comparable rs = false.
Proof.
  intros Hs. pose proof (sorted_by_task_id_spec rs) as Hspec.
  destruct (mutually_comparable rs).
  - destruct Hspec as (l' & Hl' & _). congruence.
  - split; [congruence|done].
Qed.

Lemma sorted_never_blocks rs : sorted_by_task_id rs <> Blocked.
Proof.
  pose proof (sorted_by_task_id_spec rs) as Hspec.
  destruct (mutually_comparable rs).
  - destruct Hspec as (l' & Hl' & _). congruence.
  - congruence.
Qed.






(** ** The [with] statement *)




(** ** A pool that was shut down *)














(** ** A machine without devices *)

(** Without worker processes nothing comes back on the result queue. *)
Lemma run_no_worker c turns s :
  workers s.2 = [] -> result_queue s.2 = [] ->
  remaining (run c turns s).1 = remaining s.1.
Proof.
  revert s. induction turns as [|a turns IH]; intros [p m] Hws Hrq; [done|].
  rewrite run_cons. simpl in *. destruct a as [|i]; simpl.
  - unfold parent_step. destruct (todo p) as [|td rest].
    + rewrite Hrq. destruct (remaining p) eqn:Hr; rewrite IH; simpl; done.
    + destruct (full c (task_queue m)); rewrite IH; simpl; done.
  - unfold _worker_process. rewrite Hws. simpl. by rewrite IH.
Qed.

(** X8: on a machine where [torch.cuda.device_count()] is 0 a pool can be
    built, but [execute] never returns a list for a batch that is not
    empty: the first batch of a threading pool ends in the
    [ZeroDivisionError] of [i % 0] (in the [ValueError] of a thread pool of
    no workers when an empty list of ids was given), and a multiprocessing
    pool has no worker, so that [execute] waits for ever. *)
Theorem no_device_no_result a init_fn init_args init_kwargs verbose pool
    s func tasks task_ids :
  GPUPool_init 0 a init_fn init_args init_kwargs verbose = Returned pool ->
  tasks <> [] ->
  (execute s func tasks task_ids pool).2 =
    match approach (cfg pool), task_ids with
    | threading, Some [] => Raised ValueError
    | threading, _ => Raised ZeroDivisionError
    | multiprocessing, _ => Blocked
    end.
Proof.
  unfold GPUPool_init. intros Hpool Hne.
  destruct tasks as [|task tasks]; [done|].
  destruct (String.eqb a "threading").
  - injection Hpool as <-. unfold execute, run_engine. simpl.
    by destruct task_ids as [[|tid ids]|].
  - destruct (String.eqb a "multiprocessing"); [|done].
    injection Hpool as <-. unfold execute, run_engine, _execute_multiprocessing.
    simpl.
    match goal with |- context [run ?c0 ?t0 ?s0] =>
      pose proof (run_no_worker c0 t0 s0 eq_refl eq_refl) as Hrem;
      destruct (run c0 t0 s0) as [parent' m] end.
    simpl in *. unfold parent_done. rewrite Hrem.
    by destruct (todo parent').
Qed.

Lemma no_device_no_result_witness :
  (execute in_order square [PInt 1] None (new_pool 0 threading None)).2
  = Raised ZeroDivisionError /\
  (execute straight square [PInt 1] None (new_pool 0 multiprocessing None)).2
  = Blocked.
Proof.
  split.
  - refine (no_device_no_result "threading" None (PTuple []) [] true
              (new_pool 0 threading None) in_order square [PInt 1] None _ _).
    + reflexivity.
    + discriminate.
  - refine (no_device_no_result "multiprocessing" None (PTuple []) [] true
              (new_pool 0 multiprocessing None) straight square [PInt 1] None _ _).
    + reflexivity.
    + discriminate.
Defined.

(** ** Fewer task ids than tasks *)




(** ** The task queue *)

Lemma worker_turn_queue c i m :
  task_queue (_worker_process c i m) = task_queue m \/
  exists o, task_queue m = o :: task_queue (_worker_process c i m) /\
    queued (task_queue m)
    = match o with Some td => [td] | None => [] end
      ++ queued (task_queue (_worker_process c i m)).
Proof.
  unfold _worker_process. destruct (workers m !! i) as [p|]; [|by left].
  destruct (proc_state p) as [|mo n|mo n|mo n td|]; try by left.
  - destruct (init_fn c) as [f|]; [|by left].
    destruct (f (proc_gpu p) (init_args c) (init_kwargs c)); by left.
  - destruct (task_queue m) as [|o queue]; [by left|].
    right. exists o. by destruct o.
Qed.

Lemma full_bound c queue :
  0 < n_gpus c -> full c queue = false -> length queue < maxsize c.
Proof.
  unfold full, maxsize. intros Hn Hf.
  apply andb_false_iff in Hf as [Hf|Hf].
  - apply Nat.ltb_ge in Hf. lia.
  - apply Nat.leb_gt in Hf. lia.
Qed.

Lemma worker_turn_bound c i m :
  length (task_queue (_worker_process c i m)) <= length (task_queue m).
Proof.
  destruct (worker_turn_queue c i m) as [->|(o & -> & _)]; simpl; lia.
Qed.

Lemma turn_bound c a s :
  0 < n_gpus c ->
  length (task_queue s.2) <= maxsize c ->
  length (task_queue (turn c a s).2) <= maxsize c.
Proof.
  intros Hn Hb. destruct s as [p m], a as [|i]; simpl in *.
  - unfold parent_step. destruct (todo p) as [|td rest].
    + by destruct (remaining p), (result_queue m).
    + destruct (full c (task_queue m)) eqn:Hf; [done|]. simpl.
      apply full_bound in Hf; [|done]. rewrite length_app. simpl. lia.
  - pose proof (worker_turn_bound c i m). lia.
Qed.

Lemma run_bound c turns s :
  0 < n_gpus c ->
  length (task_queue s.2) <= maxsize c ->
  length (task_queue (run c turns s).2) <= maxsize c.
Proof.
  intros Hn. revert s. induction turns as [|a turns IH]; intros s Hb; [done|].
  rewrite run_cons. apply IH. by apply turn_bound.
Qed.

Lemma run_children_bound c children m :
  length (task_queue (run_children c children m)) <= length (task_queue m).
Proof.
  revert m. induction children as [|i children IH]; intros m; [done|].
  simpl. pose proof (IH (_worker_process c i m)).
  pose proof (worker_turn_bound c i m). lia.
Qed.

Lemma send_signals_bound c count pauses m :
  0 < n_gpus c ->
  length (task_queue m) <= maxsize c ->
  length (task_queue (send_signals c count pauses m).2) <= maxsize c.
Proof.
  intros Hn. revert pauses m.
  induction count as [|count IH]; intros pauses m Hb; [done|].
  simpl. apply IH.
  pose proof (run_children_bound c (default [] (head pauses)) m) as Hc.
  destruct (full c _) eqn:Hf; [lia|]. simpl.
  apply full_bound in Hf; [|done]. rewrite length_app. simpl. lia.
Qed.

Lemma join_workers_bound c count i pauses m :
  length (task_queue (join_workers c count i pauses m)) <= length (task_queue m).
Proof.
  revert i pauses m. induction count as [|count IH]; intros i pauses m; [done|].
  simpl.
  pose proof (run_children_bound c (default [] (head pauses)) m) as Hc.
  match goal with |- context [join_workers c count (S i) (tail pauses) ?m2] =>
    pose proof (IH (S i) (tail pauses) m2) as Hj;
    assert (Hm2 : task_queue m2 = task_queue (run_children c (default [] (head pauses)) m))
      by (by destruct (workers _ !! i)) end.
  rewrite Hm2 in Hj. lia.
Qed.

(** The threading engine touches neither the configuration nor the
    attributes of the multiprocessing engine. *)
Lemma execute_threading_frame s func tasks task_ids pool :
  approach (cfg pool) = threading ->
  cfg (execute s func tasks task_ids pool).1 = cfg pool /\
  mpr (execute s func tasks task_ids pool).1 = mpr pool.
Proof.
  intros Ha. unfold execute. destruct tasks as [|task tasks]; [done|].
  unfold run_engine, _execute_threading. rewrite Ha.
  destruct (initialized (thr pool)); [done|].
  by destruct (_initialize_models_threading (cfg pool) (thr pool)) as [t r].
Qed.

(** X10: the task queue of a pool with devices never holds more than
    [2 * n_gpus] entries: the parent puts a task only while the queue is
    not full, and [shutdown] a signal likewise. The bound holds at every
    moment of a batch, after [execute], and after [shutdown]. *)
Theorem task_queue_stays_bounded s pauses func tasks task_ids pool :
  0 < n_gpus (cfg pool) ->
  length (task_queue (mpr pool)) <= 2 * n_gpus (cfg pool) ->
  (forall turns parent,
     length (task_queue (run (cfg pool) turns (parent, mpr pool)).2)
     <= 2 * n_gpus (cfg pool)) /\
  length (task_queue (mpr (execute s func tasks task_ids pool).1))
  <= 2 * n_gpus (cfg pool) /\
  length (task_queue (mpr (shutdown pauses pool).1)) <= 2 * n_gpus (cfg pool).
Proof.
  intros Hn Hb.
  assert (Hb' : length (task_queue (mpr pool)) <= maxsize (cfg pool))
    by (unfold maxsize; lia).
  assert (Hmax : maxsize (cfg pool) = 2 * n_gpus (cfg pool))
    by (unfold maxsize; lia).
  rewrite <- Hmax. split; [|split].
  - intros turns parent. by apply run_bound.
  - destruct (approach (cfg pool)) eqn:Ha.
    + by rewrite (proj2 (execute_threading_frame s func tasks task_ids pool Ha)).
    + unfold execute. destruct tasks as [|task tasks]; [done|].
      unfold run_engine, _execute_multiprocessing. rewrite Ha.
      set (pool1 := if started (mpr pool) then pool else (start pool).1).
      assert (H1 : cfg pool1 = cfg pool /\ task_queue (mpr pool1) = task_queue (mpr pool)).
      { subst pool1. unfold start. rewrite Ha. by destruct (started (mpr pool)). }
      destruct H1 as [Hc Hq]. rewrite Hc.
      match goal with |- context [run ?c0 ?t0 ?s0] =>
        pose proof (run_bound c0 t0 s0 Hn) as Hrun;
        destruct (run c0 t0 s0) as [parent' m] end.
      simpl in *. apply Hrun. by rewrite Hq.
  - unfold shutdown.
    destruct (approach (cfg pool)), (started (mpr pool)); try done.
    match goal with |- context [send_signals ?c0 ?n0 pauses ?m1] =>
      pose proof (send_signals_bound c0 n0 pauses m1 Hn Hb') as Hsig;
      destruct (send_signals c0 n0 pauses m1) as [pauses' m2] end.
    simpl in *.
    pose proof (join_workers_bound (cfg pool) (length (workers m2)) 0 pauses' m2).
    lia.
Qed.

Lemma task_queue_stays_bounded_witness :
  length (task_queue
            (run (cfg (new_pool 1 multiprocessing None))
               [TheParent; TheParent; TheParent]
               ({| todo := submissions square [PInt 1; PInt 2; PInt 3]
                             (default_task_ids [PInt 1; PInt 2; PInt 3]);
                   remaining := 3; results := [] |},
                mpr (new_pool 1 multiprocessing None))).2) <= 2.
Proof.
  apply (task_queue_stays_bounded in_order [] square [] None
           (new_pool 1 multiprocessing None)).
  - simpl. lia.
  - simpl. lia.
Defined.

(** X11: the queue hands the tasks out in submission order. At every
    moment of a batch the tasks that no worker has taken yet, those on the
    queue followed by those still to be put, are a final segment of the
    submitted batch; what the workers have taken is the initial segment
    before it. *)
Theorem tasks_leave_in_submission_order c turns batch count m :
  queued (task_queue m) = [] ->
  exists taken,
    batch = taken
      ++ queued (task_queue
                   (run c turns
                      ({| todo := batch; remaining := count; results := [] |}, m)).2)
      ++ todo (run c turns
                 ({| todo := batch; remaining := count; results := [] |}, m)).1.
Proof.
  intros Hq.
  set (s0 := ({| todo := batch; remaining := count; results := [] |}, m)).
  assert (H0 : exists taken, batch = taken ++ queued (task_queue s0.2) ++ todo s0.1).
  { exists []. simpl. by rewrite Hq. }
  clearbody s0. revert s0 H0.
  induction turns as [|a turns IH]; intros s0 H0; [done|].
  rewrite run_cons. apply IH. destruct H0 as [taken Ht].
  destruct s0 as [p m0], a as [|i]; simpl in *.
  - unfold parent_step. destruct (todo p) as [|td rest] eqn:Htodo.
    + destruct (remaining p), (result_queue m0); simpl; rewrite ?Htodo;
        by exists taken.
    + destruct (full c (task_queue m0)); simpl; rewrite ?Htodo; [by exists taken|].
      exists taken. by rewrite queued_app, <- app_assoc.
  - destruct (worker_turn_queue c i m0) as [->|(o & _ & Ho)]; [by exists taken|].
    exists (taken ++ match o with Some td => [td] | None => [] end).
    by rewrite Ht, Ho, <- !app_assoc.
Qed.

Lemma tasks_leave_in_submission_order_witness :
  exists taken,
    submissions square [PInt 1; PInt 2; PInt 3] [TidInt 0; TidInt 1; TidInt 2]
    = taken
      ++ queued (task_queue
           (run (cfg (new_pool 1 multiprocessing None)) (turns back_pressure)
              ({| todo := submissions square [PInt 1; PInt 2; PInt 3]
                            [TidInt 0; TidInt 1; TidInt 2];
                  remaining := 3; results := [] |},
               mpr (start (new_pool 1 multiprocessing None)).1)).2)
      ++ todo (run (cfg (new_pool 1 multiprocessing None)) (turns back_pressure)
                 ({| todo := submissions square [PInt 1; PInt 2; PInt 3]
                               [TidInt 0; TidInt 1; TidInt 2];
                     remaining := 3; results := [] |},
                  mpr (start (new_pool 1 multiprocessing None)).1)).1.
Proof.
  apply (tasks_leave_in_submission_order
           (cfg (new_pool 1 multiprocessing None)) (turns back_pressure)).
  reflexivity.
Defined.

(** ** The threading engine in any state *)

(** The first device for which the initializer raises, if there is one. *)
Lemma first_failure c (gpu_ids : list nat) :
  (forall g, g ∈ gpu_ids -> init_error c g = None) \/
  exists before d after e, gpu_ids = before ++ d :: after /\
    (forall g, g ∈ before -> init_error c g = None) /\ init_error c d = Some e.
Proof.
  induction gpu_ids as [|g0 gpu_ids IH].
  - left. intros g Hg. by apply elem_of_nil in Hg.
  - destruct (init_error c g0) as [e|] eqn:H0.
    + right. exists [], g0, gpu_ids, e. split; [done|]. split; [|done].
      intros g Hg. by apply elem_of_nil in Hg.
    + destruct IH as [Hall|(before & d & after & e & -> & Hbefore & Hd)].
      * left. intros g [->|Hg]%elem_of_cons; [done|by apply Hall].
      * right. exists (g0 :: before), d, after, e. split; [done|]. split; [|done].
        intros g [->|Hg]%elem_of_cons; [done|by apply Hbefore].
Qed.

(** On a ready threading pool [execute] returns, unless the ids cannot be
    compared, and leaves the models loaded. *)
Lemma execute_on_ready_threading s func tasks task_ids pool :
  threading_ready pool -> tasks <> [] ->
  threading_kept (execute s func tasks task_ids pool).1 /\
  initialized (thr (execute s func tasks task_ids pool).1) = true /\
  ((exists outs, (execute s func tasks task_ids pool).2 = Returned outs) \/
   ((execute s func tasks task_ids pool).2 = Raised TypeError /\
    ids_comparable
      (map fst (zip (default (default_task_ids tasks) task_ids) tasks)) = false)).
Proof.
  intros Hr Hne. unfold execute. destruct tasks as [|task tasks]; [done|].
  set (ids := default (default_task_ids (task :: tasks)) task_ids).
  unfold run_engine. rewrite (proj1 Hr).
  destruct (execute_threading_ready (picks s) func (task :: tasks) ids pool Hr)
    as (pool' & -> & Hc & _ & Hi' & Hr').
  simpl. split; [|split; [done|]].
  { split; [apply Hr'|]. intros _. destruct Hr' as (_ & _ & Hl).
    by rewrite Hi' in Hl. }
  set (batch := zip ids (task :: tasks)).
  set (devices := round_robin (n_gpus (cfg pool)) 0 (length batch)).
  set (raw := as_completed _ _ _).
  assert (Hraw : raw ≡ₚ outcomes_on (cfg pool) func devices batch).
  { apply as_completed_perm. apply Hr. }
  destruct (sorted_by_task_id raw) as [outs|e|] eqn:Hsort.
  - left. by exists outs.
  - right. apply sorted_raises in Hsort as [-> Hcmp]. split; [done|].
    apply Bool.not_true_is_false. intros H2.
    rewrite <- (outcomes_on_ids (cfg pool) func devices) in H2
      by apply round_robin_length.
    apply (ids_comparable_perm _ (map task_id raw)) in H2.
    + unfold mutually_comparable in Hcmp. congruence.
    + by rewrite Hraw.
  - by apply sorted_never_blocks in Hsort.
Qed.

(** X12: what [execute] can do under threading, in any state a threading
    pool can be in. It never waits for ever and never raises [KeyError] (a
    device in range always has its lock and its models). It raises the
    error of the initializer, only while the models are not loaded, and
    leaves them not loaded; the [TypeError] of ids that cannot be compared;
    [ZeroDivisionError] or [ValueError] only without devices. When it
    returns for a batch that is not empty, the models are loaded. *)
Theorem threading_execute_cases s func tasks task_ids pool :
  threading_kept pool ->
  threading_kept (execute s func tasks task_ids pool).1 /\
  match (execute s func tasks task_ids pool).2 with
  | Returned outs =>
      tasks = [] \/
      (0 < n_gpus (cfg pool) /\
       initialized (thr (execute s func tasks task_ids pool).1) = true)
  | Raised (Thrown e) =>
      tasks <> [] /\ initialized (thr pool) = false /\
      initialized (thr (execute s func tasks task_ids pool).1) = false /\
      exists d, d < n_gpus (cfg pool) /\ init_error (cfg pool) d = Some e
  | Raised TypeError =>
      0 < n_gpus (cfg pool) /\
      ids_comparable
        (map fst (zip (default (default_task_ids tasks) task_ids) tasks)) = false
  | Raised ZeroDivisionError | Raised ValueError => n_gpus (cfg pool) = 0
  | Raised KeyError => False
  | Blocked => False
  end.
Proof.
  intros [Ha Hkept].
  destruct tasks as [|task tasks]; [split; [done|by left]|].
  destruct (decide (n_gpus (cfg pool) = 0)) as [Hn|Hn].
  { (* no device *)
    unfold execute, run_engine, _execute_threading, _initialize_models_threading.
    rewrite Ha, Hn.
    destruct (initialized (thr pool)) eqn:Hi; simpl.
    - split; [split; [done|intros _; by apply Hkept]|].
      destruct (zip _ (task :: tasks)) as [|[tid t] rest]; simpl; done.
    - split; [split; [done|]; intros _ g Hg; simpl in Hg; lia|].
      destruct (zip _ (task :: tasks)) as [|[tid t] rest]; simpl; done. }
  assert (Hpos : 0 < n_gpus (cfg pool)) by lia.
  assert (Hready : threading_ready pool \/
            (initialized (thr pool) = false /\
             exists before d after e,
               seq 0 (n_gpus (cfg pool)) = before ++ d :: after /\
               (forall g, g ∈ before -> init_error (cfg pool) g = None) /\
               init_error (cfg pool) d = Some e)).
  { destruct (initialized (thr pool)) eqn:Hi.
    - left. split; [done|]. split; [done|]. rewrite Hi. by apply Hkept.
    - destruct (first_failure (cfg pool) (seq 0 (n_gpus (cfg pool))))
        as [Hall|Hfirst]; [|by right].
      left. split; [done|]. split; [done|]. rewrite Hi.
      intros g Hg. apply Hall. apply elem_of_seq. lia. }
  destruct Hready as [Hr|(Hi & before & d & after & e & Hseq & Hbefore & Hd)].
  - destruct (execute_on_ready_threading s func (task :: tasks) task_ids pool Hr)
      as (Hk & Hi' & [[outs ->]|[-> Hcmp]]); [done|..].
    + split; [done|]. right. by split.
    + split; [done|]. by split.
  - unfold execute, run_engine, _execute_threading, _initialize_models_threading.
    rewrite Ha, Hi, Hseq.
    destruct (load_models_raises (cfg pool) before d after (thr pool) e Hbefore Hd)
      as (t' & -> & Hi'). simpl. rewrite Hi in Hi'.
    split.
    + split; [done|]. simpl. intros Ht. congruence.
    + split; [done|]. split; [done|]. split; [done|]. exists d. split; [|done].
      assert (Hin : d ∈ seq 0 (n_gpus (cfg pool))).
      { rewrite Hseq. apply elem_of_app. right. apply list_elem_of_here. }
      apply elem_of_seq in Hin. lia.
Qed.

Lemma threading_kept_new n init_fn : threading_kept (new_pool n threading init_fn).
Proof. split; [done|]. simpl. discriminate. Qed.

Lemma threading_execute_cases_witness :
  threading_kept
    (execute in_order square [PInt 1; PInt 2; PInt 3] None
       (new_pool 2 threading (Some boom))).1.
Proof.
  apply (threading_execute_cases in_order square [PInt 1; PInt 2; PInt 3] None
           (new_pool 2 threading (Some boom))).
  apply threading_kept_new.
Defined.

(** X13: the models are loaded once. On a threading pool whose models are
    loaded, [execute] leaves the pool as it is, so that the tasks of every
    later batch get the same models, and it does not call the initializer:
    what it answers is the same whatever the initializer is. *)
Theorem threading_models_loaded_once s func tasks task_ids pool f :
  approach (cfg pool) = threading -> initialized (thr pool) = true ->
  (execute s func tasks task_ids pool).1 = pool /\
  (execute s func tasks task_ids (with_init_fn f pool)).2
  = (execute s func tasks task_ids pool).2.
Proof.
  intros Ha Hi. unfold execute. destruct tasks as [|task tasks]; [done|].
  unfold run_engine, _execute_threading. simpl. rewrite Ha, Hi. simpl.
  split; [|done]. by destruct pool.
Qed.

Lemma threading_models_loaded_once_witness :
  (execute in_order square [PInt 4] None
     (execute in_order square [PInt 1; PInt 2; PInt 3] None
        (new_pool 2 threading None)).1).1
  = (execute in_order square [PInt 1; PInt 2; PInt 3] None
       (new_pool 2 threading None)).1.
Proof.
  apply (threading_models_loaded_once in_order square [PInt 4] None
           (execute in_order square [PInt 1; PInt 2; PInt 3] None
              (new_pool 2 threading None)).1 None).
  - reflexivity.
  - reflexivity.
Defined.

(** ** Execution statistics *)

Lemma stats_get_set_eq g st gs : stats_get g (stats_set g st gs) = Some st.
Proof.
  induction gs as [|[g' st'] gs IH]; simpl.
  - by rewrite Nat.eqb_refl.
  - destruct (g =? g') eqn:Hg; simpl; [by rewrite Nat.eqb_refl|by rewrite Hg].
Qed.

Lemma stats_get_set_ne g g' st gs :
  g' <> g -> stats_get g' (stats_set g st gs) = stats_get g' gs.
Proof.
  intros Hne. apply Nat.eqb_neq in Hne.
  induction gs as [|[g2 st2] gs IH]; simpl.
  - by rewrite Hne.
  - destruct (g =? g2) eqn:Hg; simpl.
    + apply Nat.eqb_eq in Hg. subst g2. by rewrite Hne.
    + by rewrite IH.
Qed.

Lemma stats_set_keys g st gs :
  map fst (stats_set g st gs)
  = match stats_get g gs with
    | Some _ => map fst gs
    | None => map fst gs ++ [g]
    end.
Proof.
  induction gs as [|[g' st'] gs IH]; simpl; [done|].
  destruct (g =? g') eqn:Hg; simpl.
  - apply Nat.eqb_eq in Hg. by subst g'.
  - rewrite IH. by destruct (stats_get g gs).
Qed.

Lemma stats_get_None g gs : stats_get g gs = None <-> g ∉ map fst gs.
Proof.
  induction gs as [|[g' st'] gs IH]; simpl.
  - split; [intros _; apply not_elem_of_nil|done].
  - rewrite not_elem_of_cons, <- IH.
    destruct (Nat.eqb_spec g g') as [->|Hne]; [|tauto].
    split; [done|]. by intros [? _].
Qed.

Lemma stats_get_elem_of g st gs :
  NoDup (map fst gs) -> (g, st) ∈ gs <-> stats_get g gs = Some st.
Proof.
  induction gs as [|[g' st'] gs IH]; simpl; intros Hnd.
  - split; [by intros ?%elem_of_nil|done].
  - apply NoDup_cons in Hnd as [Hnot Hnd]. rewrite elem_of_cons.
    destruct (Nat.eqb_spec g g') as [->|Hne].
    + split.
      * intros [[= ->]|Hin]; [done|]. exfalso. apply Hnot.
        apply list_elem_of_fmap. by exists (g', st).
      * intros [= ->]. by left.
    + rewrite <- IH by done. split.
      * intros [[= -> _]|Hin]; [done|done].
      * by right.
Qed.

Lemma completed_on_snoc g l r :
  completed_on g (l ++ [r])
  = completed_on g l
    ++ (if success r && (gpu_id r =? g) then [r] else []).
Proof. unfold completed_on. by rewrite List.filter_app. Qed.

Lemma tally_step gs seen r :
  tallied gs seen -> success r = true ->
  exists gs', tally r gs = Returned gs' /\ tallied gs' (seen ++ [r]).
Proof.
  intros [Hnd Hget] Hr. destruct r as [tid g0 dt res|]; [|done].
  unfold tally. simpl.
  set (zero := {| stat_count := 0; stat_total_time := 0%Q |}).
  set (gs1 := match stats_get g0 gs with
              | Some _ => gs
              | None => stats_set g0 zero gs
              end).
  assert (H1 : NoDup (map fst gs1) /\
               (forall g, g <> g0 -> stats_get g gs1 = stats_get g gs) /\
               stats_get g0 gs1
               = Some {| stat_count := length (completed_on g0 seen);
                         stat_total_time := seconds_on g0 seen |}).
  { subst gs1. pose proof (Hget g0) as H0. unfold seconds_on in *.
    destruct (stats_get g0 gs) as [st|] eqn:Hg0.
    - split; [done|]. split; [done|].
      revert H0. destruct (completed_on g0 seen); [done|by intros [= ->]].
    - split; [|split].
      + rewrite stats_set_keys, Hg0. apply NoDup_app. split; [done|].
        split; [|apply NoDup_singleton].
        intros g Hg [->|[]%elem_of_nil]%elem_of_cons.
        by apply stats_get_None in Hg0.
      + intros g Hne. by apply stats_get_set_ne.
      + rewrite stats_get_set_eq. revert H0.
        by destruct (completed_on g0 seen). }
  destruct H1 as (Hnd1 & Hother & Hown). rewrite Hown. simpl.
  eexists. split; [done|]. split.
  - rewrite stats_set_keys, Hown. done.
  - intros g. rewrite completed_on_snoc. simpl.
    destruct (Nat.eqb_spec g0 g) as [<-|Hne].
    + rewrite stats_get_set_eq.
      destruct (completed_on g0 seen ++ [Success tid g0 dt res]) eqn:Happ.
      { by apply app_eq_nil in Happ as [_ ?]. }
      rewrite <- Happ. f_equal. f_equal.
      * rewrite length_app. simpl. done.
      * unfold seconds_on. rewrite completed_on_snoc. simpl.
        rewrite Nat.eqb_refl. simpl. by rewrite foldl_app.
    + rewrite stats_get_set_ne by done. rewrite Hother by done.
      rewrite Hget, app_nil_r. unfold seconds_on.
      rewrite completed_on_snoc. simpl.
      destruct (Nat.eqb_spec g0 g); [done|]. by rewrite app_nil_r.
Qed.

Lemma tally_all_tallied rest gs seen :
  tallied gs seen -> Forall (fun r => success r = true) rest ->
  exists gs', tally_all rest gs = Returned gs' /\ tallied gs' (seen ++ rest).
Proof.
  revert gs seen. induction rest as [|r rest IH]; intros gs seen Ht Hall.
  - exists gs. by rewrite app_nil_r.
  - apply Forall_cons in Hall as [Hr Hall].
    destruct (tally_step gs seen r Ht Hr) as (gs1 & H1 & Ht1).
    destruct (IH gs1 (seen ++ [r]) Ht1 Hall) as (gs' & H' & Ht').
    exists gs'. simpl. rewrite H1. simpl. split; [done|].
    by rewrite <- app_assoc in Ht'.
Qed.

Lemma for_each_returned {A B} (f : A -> Completion B) (g : A -> B) (l : list A) :
  Forall (fun x => f x = Returned (g x)) l ->
  for_each f l = Returned (map g l).
Proof.
  induction 1 as [|x l Hx _ IH]; simpl; [done|]. by rewrite Hx, IH.
Qed.

Lemma completed_on_successful g l :
  completed_on g (List.filter success l) = completed_on g l.
Proof.
  unfold completed_on. induction l as [|r l IH]; simpl; [done|].
  destruct (success r) eqn:Hr; simpl; rewrite ?Hr; simpl; by rewrite IH.
Qed.

Lemma filter_lengths {A} (f : A -> bool) (l : list A) :
  length (List.filter f l) + length (List.filter (fun x => negb (f x)) l)
  = length l.
Proof.
  induction l as [|x l IH]; simpl; [done|]. destruct (f x); simpl; lia.
Qed.

(** X14: the statistics of [_print_stats]. For every list of Outcomes the
    workers can build it raises nothing (no key is missing where it reads
    one, and no device is divided by a count of zero), and it prints: the
    number of Outcomes, split into successful and failed; the failed runs
    with their errors, in list order; and one line for each device that
    completed a task, and for no other, with the number of tasks it
    completed and the average of their seconds. *)
Theorem print_stats_counts (results : list Outcome) :
  exists st, _print_stats results = Returned st /\
    total_tasks st = length results /\
    total_successful st + total_failed st = length results /\
    total_successful st = length (List.filter success results) /\
    Forall2 (fun r line => task_id r = line.1 /\ error r = Some line.2)
      (List.filter (fun r => negb (success r)) results) (failed_runs st) /\
    NoDup (map (fun line => line.1.1) (gpu_statistics st)) /\
    (forall g n avg,
       (g, n, avg) ∈ gpu_statistics st <->
       0 < n /\ n = length (completed_on g results) /\
       avg = Qdiv (seconds_on g results) (inject_Z (Z.of_nat n))).
Proof.
  unfold _print_stats.
  set (successful := List.filter success results).
  set (failed := List.filter (fun r => negb (success r)) results).
  assert (Hfailed : Forall (fun r => failed_line r
                      = Returned (task_id r, default "" (error r))) failed).
  { apply Forall_forall. intros r Hr. apply list_elem_of_In, filter_In in Hr as [_ Hr].
    by destruct r. }
  rewrite (for_each_returned _ _ _ Hfailed). simpl.
  assert (Hlines : exists lines,
    match successful with
    | [] => Returned []
    | _ => do gpu_stats <- tally_all successful []; for_each gpu_line gpu_stats
    end = Returned lines /\
    NoDup (map (fun line : nat * nat * Q => line.1.1) lines) /\
    forall g n avg,
      (g, n, avg) ∈ lines <->
      0 < n /\ n = length (completed_on g results) /\
      avg = Qdiv (seconds_on g results) (inject_Z (Z.of_nat n))).
  { assert (Hsucc : Forall (fun r => success r = true) successful).
    { apply Forall_forall. intros r Hr.
      by apply list_elem_of_In, filter_In in Hr as [_ Hr]. }
    assert (Hcomp : forall g, completed_on g successful = completed_on g results)
      by (intros g; apply completed_on_successful).
    assert (Hsec : forall g, seconds_on g successful = seconds_on g results)
      by (intros g; unfold seconds_on; by rewrite Hcomp).
    destruct (tally_all_tallied successful [] [])
      as (gs & Hgs & Hnd & Hget); [|done|].
    { split; [constructor|]. intros g. done. }
    simpl in Hget.
    assert (Hline : Forall (fun entry : nat * GpuStat =>
              gpu_line entry
              = Returned (entry.1, stat_count entry.2,
                          Qdiv (stat_total_time entry.2)
                            (inject_Z (Z.of_nat (stat_count entry.2))))) gs).
    { apply Forall_forall. intros [g st] Hin.
      apply (stats_get_elem_of g st gs Hnd) in Hin. rewrite Hget in Hin.
      destruct (completed_on g successful) as [|r l]; [done|].
      injection Hin as <-. done. }
    assert (Hmem : forall g n avg,
      (g, n, avg) ∈ map (fun entry : nat * GpuStat =>
                           (entry.1, stat_count entry.2,
                            Qdiv (stat_total_time entry.2)
                              (inject_Z (Z.of_nat (stat_count entry.2))))) gs <->
      0 < n /\ n = length (completed_on g results) /\
      avg = Qdiv (seconds_on g results) (inject_Z (Z.of_nat n))).
    { intros g n avg. rewrite list_elem_of_fmap. split.
      - intros ([g' st] & [= -> -> ->] & Hin). simpl.
        apply (stats_get_elem_of g' st gs Hnd) in Hin. rewrite Hget in Hin.
        rewrite <- Hcomp, <- Hsec.
        destruct (completed_on g' successful) as [|r l] eqn:Hc; [done|].
        injection Hin as <-. simpl. split; [lia|done].
      - intros (Hn & -> & ->).
        exists (g, {| stat_count := length (completed_on g results);
                      stat_total_time := seconds_on g results |}).
        split; [done|]. apply (stats_get_elem_of _ _ gs Hnd). rewrite Hget.
        rewrite Hcomp, Hsec.
        destruct (completed_on g results); [simpl in Hn; lia|done]. }
    assert (Hkeys : map (fun line : nat * nat * Q => line.1.1)
                      (map (fun entry : nat * GpuStat =>
                              (entry.1, stat_count entry.2,
                               Qdiv (stat_total_time entry.2)
                                 (inject_Z (Z.of_nat (stat_count entry.2))))) gs)
                    = map fst gs).
    { rewrite map_map. by apply map_ext. }
    destruct successful as [|r0 rest] eqn:Hs.
    - exists []. split; [done|]. split; [constructor|].
      intros g n avg. split; [by intros ?%elem_of_nil|].
      intros (Hn & -> & _). rewrite <- Hcomp in Hn. simpl in Hn. lia.
    - eexists. rewrite Hgs. simpl cbind.
      rewrite (for_each_returned _ _ _ Hline). split; [done|].
      split; [by rewrite Hkeys|done]. }
  destruct Hlines as (lines & -> & Hnd & Hmem). simpl.
  eexists. split; [done|]. simpl.
  split; [done|]. split; [apply filter_lengths|]. split; [done|].
  split; [|by split].
  clear. subst failed. induction results as [|r results IH]; simpl; [constructor|].
  destruct r as [tid g dt res|tid g e]; simpl; [done|]. by constructor.
Qed.

(** ** An initializer that raises for every device *)









(** ** Fair schedules *)












Section Fair.

(** A batch of a pool with a device and an initializer that does not
    raise. *)
Context (c : Config) (Hinit : initializer_ok c) (Hn : 0 < n_gpus c).
Context (batch : list TaskData).




End Fair.





